(** * Affinity propagation (affprop/temp.py): a shallow embedding

    The module [affprop/temp.py] defines four helpers
    ([calc_similarity_matrix], [init_r_array], [a_array_update],
    [r_array_update]) and the driver [afprop_vec2].  This development embeds
    them as Rocq functions and states the properties of the design document
    as theorems about these functions.

    Conventions.
    - NumPy float arrays are lists of exact rationals [Q]; rounding, NaN and
      infinities in arrays are outside the model.  Numeric results are
      compared with [==] ([Qeq]).
    - The scalar parameters of the driver keep their Python type: an [int],
      a [float] (finite, infinite or NaN) or a NumPy integer.
    - A one-dimensional array is a [list Q], a matrix a list of rows, the
      per-iteration history arrays ([a_array], [r_array]) lists of matrices.
    - Code that can raise returns in the error monad [py]; an in-place update
      of an array argument is made explicit by returning the updated array
      next to the returned value. *)

From Stdlib Require Import QArith Qminmax Lqa ZArith Lia.
From stdpp Require Import base list strings sorting.

(** ** Exceptions and the error monad *)

(** The exceptions the module can raise.  [NotModelled] is no Python
    exception: it marks a call whose arrays would hold NaN or infinities,
    which the exact arrays of this model do not hold. *)

Inductive py_error : Type :=
| ValueError (msg : string)
| NameError (name : string)
| TypeError (msg : string)
| IndexError (msg : string)
| NotModelled (what : string).

Definition py (A : Type) : Type := (py_error + A)%type.

Definition py_bind {A B : Type} (c : py A) (k : A -> py B) : py B :=
  match c with
  | inl e => inl e
  | inr a => k a
  end.

Notation "x <- c ;; k" := (py_bind c (fun x => k))
  (at level 100, c at next level, right associativity).

(** [for x in xs: s = body(x, s)] with an exception leaving the loop. *)
Fixpoint for_each {S : Type} (xs : list nat) (body : nat -> S -> py S) (s : S)
  : py S :=
  match xs with
  | [] => inr s
  | x :: xs' => s' <- body x s ;; for_each xs' body s'
  end.

Fixpoint py_mapM {A B : Type} (f : A -> py B) (xs : list A) : py (list B) :=
  match xs with
  | [] => inr []
  | x :: xs' => y <- f x ;; ys <- py_mapM f xs' ;; inr (y :: ys)
  end.

(** ** Arrays *)

Abbreviation vec := (list Q).
Abbreviation matrix := (list (list Q)).
Abbreviation tensor := (list (list (list Q))).

(** [l[i]] for [i >= 0]. *)
Definition idx {A : Type} (l : list A) (i : nat) : py A :=
  match l !! i with
  | Some x => inr x
  | None => inl (IndexError "index out of bounds")
  end.

(** [l[z]] with Python's negative indices: [l[-1]] is the last element. *)
Definition py_idx {A : Type} (l : list A) (z : Z) : py A :=
  if (z <? 0)%Z
  then if (- z <=? Z.of_nat (length l))%Z
       then idx l (Z.to_nat (Z.of_nat (length l) + z))
       else inl (IndexError "index out of bounds")
  else idx l (Z.to_nat z).

(** [l[i] = x]. *)
Definition set_idx {A : Type} (l : list A) (i : nat) (x : A) : py (list A) :=
  if decide (i < length l) then inr (<[i := x]> l)
  else inl (IndexError "index out of bounds").

(** [t[z, i, k]], first axis with Python's index rule. *)
Definition get3 (t : tensor) (z : Z) (i k : nat) : py Q :=
  m <- py_idx t z ;; row <- idx m i ;; idx row k.

(** [t[z, :, k]]. *)
Definition get_col3 (t : tensor) (z : Z) (k : nat) : py vec :=
  m <- py_idx t z ;; py_mapM (fun row => idx row k) m.

(** The position in [l] that index [z] denotes. *)
Definition py_pos {A : Type} (l : list A) (z : Z) : nat :=
  if (z <? 0)%Z then Z.to_nat (Z.of_nat (length l) + z) else Z.to_nat z.

(** [l[z] = x] with Python's index rule. *)
Definition py_set_idx {A : Type} (l : list A) (z : Z) (x : A) : py (list A) :=
  _ <- py_idx l z ;; inr (<[py_pos l z := x]> l).

(** [t[z, i, k] = x]. *)
Definition set3 (t : tensor) (z : Z) (i k : nat) (x : Q) : py tensor :=
  m <- py_idx t z ;;
  row <- idx m i ;;
  row' <- set_idx row k x ;;
  inr (<[py_pos t z := <[i := row']> m]> t).

Definition np_ones (n : nat) : vec := replicate n 1%Q.
Definition np_zeros (n : nat) : vec := replicate n 0%Q.
Definition np_zeros2 (n m : nat) : matrix := replicate n (np_zeros m).
(** [np.zeros(n * m * t).reshape((t, n, m))]. *)
Definition np_zeros3 (t n m : nat) : tensor := replicate t (np_zeros2 n m).

Definition Qlt_bool (x y : Q) : bool := negb (Qle_bool y x).

(** [v[mask] = 0] for a boolean mask, which must have the length of [v]. *)
Definition mask_zero (v : vec) (mask : list bool) : py vec :=
  if decide (length mask = length v)
  then inr (zip_with (fun x (b : bool) => if b then 0%Q else x) v mask)
  else inl (IndexError "boolean index did not match indexed array").

Fixpoint Qsum (l : list Q) : Q :=
  match l with
  | [] => 0%Q
  | x :: l' => (x + Qsum l')%Q
  end.

(** [np.dot(u, v)] of two one-dimensional arrays. *)
Definition np_dot (u v : vec) : py Q :=
  if decide (length u = length v)
  then inr (Qsum (zip_with Qmult u v))
  else inl (ValueError "shapes not aligned").

(** Minimum and maximum of a non-empty array. *)
Definition np_min (l : list Q) : py Q :=
  match l with
  | [] => inl (ValueError "zero-size array to reduction operation minimum")
  | x :: l' => inr (foldl Qmin x l')
  end.

Definition np_max (l : list Q) : py Q :=
  match l with
  | [] => inl (ValueError "zero-size array to reduction operation maximum")
  | x :: l' => inr (foldl Qmax x l')
  end.

(** Shapes.  [shape1] is the number of columns, read off the first row. *)
Definition shape0 {A : Type} (m : list (list A)) : nat := length m.
Definition shape1 {A : Type} (m : list (list A)) : nat :=
  match m with
  | [] => 0
  | row :: _ => length row
  end.

Definition same_shape (a b : matrix) : bool :=
  bool_decide (length a = length b) &&
  forallb (fun p => bool_decide (length (fst p) = length (snd p))) (zip a b).

(** Elementwise operation on two matrices of one shape (the only case the
    module produces; NumPy's broadcasting of unequal shapes is not
    modelled and is reported as the shape error). *)
Definition mat_zip (f : Q -> Q -> Q) (a b : matrix) : py matrix :=
  if same_shape a b then inr (zip_with (zip_with f) a b)
  else inl (ValueError "operands could not be broadcast together").

Definition mat_scale (c : Q) (a : matrix) : matrix := (fun row : vec => Qmult c <$> row) <$> a.

(** ** [calc_similarity_matrix] *)

(** Numbers as a caller can pass them: a Python [int], a [float] (finite,
    an infinity, or NaN) or a NumPy integer scalar such as [np.int64].
    [type(x) == int] is observable and holds of the first kind only.
    (Other argument types, such as [bool] or [Fraction], are not
    modelled.) *)
Inductive pynum : Type :=
| PyInt (z : Z)
| PyFloat (q : Q)
| PyInf (negative : bool)
| PyNaN
| PyNpInt (z : Z).

(** What a comparison sees of a number. *)
Inductive xval : Type :=
| XFin (q : Q)
| XInf (negative : bool)
| XNaN.

Definition num_xval (x : pynum) : xval :=
  match x with
  | PyInt z | PyNpInt z => XFin (inject_Z z)
  | PyFloat q => XFin q
  | PyInf negative => XInf negative
  | PyNaN => XNaN
  end.

(** The exact value of a number, where it has one. *)
Definition num_val (x : pynum) : option Q :=
  match num_xval x with
  | XFin q => Some q
  | _ => None
  end.

(** The value of a number of an integer type. *)
Definition int_val (x : pynum) : option Z :=
  match x with
  | PyInt z | PyNpInt z => Some z
  | _ => None
  end.

Definition type_is_int (x : pynum) : bool :=
  match x with
  | PyInt _ => true
  | _ => false
  end.

(** [==], [<] and [<=] as Python evaluates them: every comparison with NaN
    is false, the infinities lie below and above all finite numbers, and an
    [int] and a [float] are compared by value. *)
Definition xval_eqb (a b : xval) : bool :=
  match a, b with
  | XFin x, XFin y => Qeq_bool x y
  | XInf s, XInf t => Bool.eqb s t
  | _, _ => false
  end.

Definition xval_ltb (a b : xval) : bool :=
  match a, b with
  | XFin x, XFin y => Qlt_bool x y
  | XInf true, XFin _ | XInf true, XInf false | XFin _, XInf false => true
  | _, _ => false
  end.

Definition xval_leb (a b : xval) : bool :=
  match a, b with
  | XFin x, XFin y => Qle_bool x y
  | XInf true, XFin _ | XInf true, XInf _ | XFin _, XInf false
  | XInf false, XInf false => true
  | _, _ => false
  end.

(** Comparisons of a number with a constant, and [x > y] of two numbers. *)
Definition num_eqb (x : pynum) (z : Z) : bool :=
  xval_eqb (num_xval x) (XFin (inject_Z z)).
Definition num_ltb (x : pynum) (y : Q) : bool := xval_ltb (num_xval x) (XFin y).
Definition num_leb (x : pynum) (y : Q) : bool := xval_leb (num_xval x) (XFin y).
Definition num_gtb (x : pynum) (y : Q) : bool := xval_ltb (XFin y) (num_xval x).
Definition num_gt (x y : pynum) : bool := xval_ltb (num_xval y) (num_xval x).

(** The value a number contributes to array arithmetic.  With NaN or an
    infinity NumPy computes arrays that hold NaN or infinities; such a
    call is reported as [NotModelled]. *)
Definition exact_val (x : pynum) : py Q :=
  match num_val x with
  | Some q => inr q
  | None => inl (NotModelled "arithmetic on NaN or an infinity")
  end.

(** Squared Euclidean distance: [cdist(..., "euclidean") ** 2] squares the
    root of the sum of squared coordinate differences; over exact numbers
    that is the sum itself. *)
Definition sq_dist (p q : vec) : Q :=
  Qsum (zip_with (fun x y => ((x - y) * (x - y))%Q) p q).

(** [-cdist(mydata, mydata, "euclidean") ** 2]. *)
Definition neg_sq_dists (mydata : matrix) : matrix :=
  (fun p : vec => (fun q : vec => (- sq_dist p q)%Q) <$> mydata) <$> mydata.

(** [np.sort] of a flat array (insertion sort). *)
Fixpoint insert_sorted (x : Q) (l : list Q) : list Q :=
  match l with
  | [] => [x]
  | y :: l' => if Qle_bool x y then x :: l else y :: insert_sorted x l'
  end.

Definition np_sort (l : list Q) : list Q := foldr insert_sorted [] l.

(** [np.median] of a non-empty array: the middle element of the sorted
    values, or the mean of the two middle elements.  (For the empty array
    NumPy yields nan, for which the rational model has no value; the model
    reports an error there.) *)
Definition np_median (l : list Q) : py Q :=
  let s := np_sort l in
  let m := length s in
  if decide (m = 0) then inl (ValueError "median of an empty array")
  else if Nat.even m
       then inr ((nth (m / 2 - 1) s 0 + nth (m / 2) s 0) / 2)%Q
       else inr (nth (m / 2) s 0%Q).

(** [np.fill_diagonal(m, x)]. *)
Definition fill_diagonal (m : matrix) (x : Q) : matrix :=
  imap (fun i row => <[i := x]> row) m.

Definition calc_similarity_matrix (mydata : matrix) (num_cluster_pref : pynum)
  : py matrix :=
  let neg_euc_dist := neg_sq_dists mydata in
  pref <- (if num_eqb num_cluster_pref 1
           then np_min (concat neg_euc_dist)
           else np_median (concat neg_euc_dist)) ;;
  inr (fill_diagonal neg_euc_dist pref).

(** ** [init_r_array] *)

(** [s_matrix - s_matrix.max(axis=1)[:, None]].  The maximum along axis 1
    does not exist where there is no column and NumPy raises [ValueError].
    The empty list is the array without rows and without columns (see
    [shape1]), the only empty shape of a square matrix, so it raises like
    every matrix with a row without columns. *)
Definition init_r_array (s_matrix : matrix) : py matrix :=
  match s_matrix with
  | [] => inl (ValueError "zero-size array to reduction operation maximum")
  | _ =>
      py_mapM (fun row => mx <- np_max row ;; inr ((fun x => (x - mx)%Q) <$> row))
              s_matrix
  end.

(** ** [a_array_update] *)

(** The body of the two loops at [(i, k)]: the assignment to
    [a_array[niter, i, k]]. *)
Definition a_array_update_at (num_data_pts : nat) (niter : Z)
    (r_array : tensor) (damp_c : Q) (i k : nat) (a_array : tensor) : py tensor :=
  let prev := (niter - 1)%Z in
  if negb (i =? k) then
    temp_vec <- set_idx (np_ones num_data_pts) k 0%Q ;;
    temp_vec <- set_idx temp_vec i 0%Q ;;
    col <- get_col3 r_array prev k ;;
    temp_vec <- mask_zero temp_vec ((fun x => Qlt_bool x 0) <$> col) ;;
    col <- get_col3 r_array prev k ;;
    a_ik_sum <- np_dot col temp_vec ;;
    r_kk <- get3 r_array prev k k ;;
    let for_min := [(r_kk + a_ik_sum)%Q] ++ np_zeros 1 in
    update_term <- np_min for_min ;;
    a_prev <- get3 a_array prev i k ;;
    set3 a_array niter i k (damp_c * update_term + (1 - damp_c) * a_prev)%Q
  else
    temp_vec <- set_idx (np_ones num_data_pts) k 0%Q ;;
    col <- get_col3 r_array prev k ;;
    temp_vec <- mask_zero temp_vec ((fun x => Qlt_bool x 0) <$> col) ;;
    col <- get_col3 r_array prev k ;;
    a_ik_sum <- np_dot col temp_vec ;;
    let update_term := a_ik_sum in
    a_prev <- get3 a_array prev i k ;;
    set3 a_array niter i k (damp_c * update_term + (1 - damp_c) * a_prev)%Q.

Definition a_array_update (num_data_pts : nat) (niter : Z) (r_array : tensor)
    (damp_c : Q) (a_array : tensor) : py (tensor * matrix) :=
  a_array <-
    for_each (seq 0 num_data_pts) (fun i a_array =>
      for_each (seq 0 num_data_pts) (fun k a_array =>
        a_array_update_at num_data_pts niter r_array damp_c i k a_array)
        a_array)
      a_array ;;
  slice <- py_idx a_array niter ;;
  inr (a_array, slice).

(** ** [r_array_update] *)

(** [m[:, rng != i]]: the matrix without column [i]. *)
Definition drop_col (m : matrix) (i : nat) : matrix := delete i <$> m.

(** [m[:, i] = col]; the column must have one entry per row. *)
Definition set_col (m : matrix) (i : nat) (col : vec) : py matrix :=
  if decide (length col = length m)
  then py_mapM (fun p => set_idx (fst p) i (snd p)) (zip m col)
  else inl (ValueError "could not broadcast input array").

Definition r_array_update (niter : Z) (a_array : tensor) (s_matrix : matrix)
    (damp_c : Q) (r_array : tensor) : py (tensor * matrix) :=
  a_t <- py_idx a_array niter ;;
  s_a_array_sum <- mat_zip Qplus a_t s_matrix ;;
  let n := shape1 s_a_array_sum in
  row_max <-
    for_each (seq 0 n) (fun i row_max =>
      col <- py_mapM np_max (drop_col s_a_array_sum i) ;;
      set_col row_max i col)
      (np_zeros2 n n) ;;
  update_term <- mat_zip Qminus s_matrix row_max ;;
  r_prev <- py_idx r_array (niter - 1) ;;
  new <- mat_zip Qplus (mat_scale damp_c update_term)
                       (mat_scale (1 - damp_c) r_prev) ;;
  old <- py_idx r_array niter ;;
  r_array <- (if same_shape new old then py_set_idx r_array niter new
              else inl (ValueError "could not broadcast input array")) ;;
  slice <- py_idx r_array niter ;;
  inr (r_array, slice).

(** ** The module namespace and calls through it *)

(** Values that cross a call boundary in [afprop_vec2]. *)
Inductive pyval : Type :=
| VNone
| VNum (x : pynum)
| VMatrix (m : matrix)
| VTensor (t : tensor).

(** A function object: from the argument list to the arguments after the
    call (arrays are passed by reference and may have been updated in
    place) and the returned value.  Function objects that print or rebind
    names are not modelled. *)
Definition callable : Type := list pyval -> py (list pyval * pyval).

(** A module namespace.  [Some f] binds a name to a function; [None] binds
    it to an object this model does not call (an imported module, or the
    driver itself).  A name that is absent is unbound.  The driver looks up
    in it the five functions it calls; the module names [pd], [np] and
    [plt] and the built-in names it also uses are taken to be bound as the
    module binds them. *)
Definition globals : Type := list (string * option callable).

Fixpoint lookup_global (g : globals) (name : string) : option (option callable) :=
  match g with
  | [] => None
  | (n, b) :: g' => if String.eqb n name then Some b else lookup_global g' name
  end.

Definition call (g : globals) (name : string) (args : list pyval)
  : py (list pyval * pyval) :=
  match lookup_global g name with
  | None => inl (NameError name)
  | Some None => inl (TypeError "object is not callable")
  | Some (Some f) => f args
  end.

(** The messages of the [TypeError] raised when a function is called with
    a number of arguments other than that of its [def]. *)
Definition init_r_array_arity_msg : string :=
  "init_r_array() takes 1 positional argument".
Definition r_array_update_arity_msg : string :=
  "r_array_update() takes 5 positional arguments".

(** The [def]s of the module as function objects: each accepts exactly the
    parameters of its [def] line. *)
Definition def_calc_similarity_matrix : callable := fun args =>
  match args with
  | [VMatrix mydata] =>
      s <- calc_similarity_matrix mydata (PyInt 1) ;; inr (args, VMatrix s)
  | [VMatrix mydata; VNum num_cluster_pref] =>
      s <- calc_similarity_matrix mydata num_cluster_pref ;; inr (args, VMatrix s)
  | [_] | [_; _] => inl (TypeError "unsupported argument type")
  | _ => inl (TypeError
      "calc_similarity_matrix() takes from 1 to 2 positional arguments")
  end.

Definition def_init_r_array : callable := fun args =>
  match args with
  | [VMatrix s_matrix] =>
      r <- init_r_array s_matrix ;; inr (args, VMatrix r)
  | [_] => inl (TypeError "unsupported argument type")
  | _ => inl (TypeError init_r_array_arity_msg)
  end.

Definition def_a_array_update : callable := fun args =>
  match args with
  | [VNum (PyInt num_data_pts); VNum (PyInt niter); VTensor r_array;
     VNum damp_c; VTensor a_array] =>
      damp <- exact_val damp_c ;;
      res <- a_array_update (Z.to_nat num_data_pts) niter r_array
                            damp a_array ;;
      inr ([VNum (PyInt num_data_pts); VNum (PyInt niter); VTensor r_array;
            VNum damp_c; VTensor (fst res)], VMatrix (snd res))
  | [_; _; _; _; _] => inl (TypeError "unsupported argument type")
  | _ => inl (TypeError "a_array_update() takes 5 positional arguments")
  end.

Definition def_r_array_update : callable := fun args =>
  match args with
  | [VNum (PyInt niter); VTensor a_array; VMatrix s_matrix; VNum damp_c;
     VTensor r_array] =>
      damp <- exact_val damp_c ;;
      res <- r_array_update niter a_array s_matrix damp r_array ;;
      inr ([VNum (PyInt niter); VTensor a_array; VMatrix s_matrix; VNum damp_c;
            VTensor (fst res)], VMatrix (snd res))
  | [_; _; _; _; _] => inl (TypeError "unsupported argument type")
  | _ => inl (TypeError r_array_update_arity_msg)
  end.

(** The names bound at module level in [temp.py]: the five imports and the
    five [def]s.  (The built-in names the driver uses, such as [range] and
    [print], live in the built-in namespace; neither of the two names the
    driver calls first is among them.) *)
Definition temp_globals : globals :=
  [ ("pd", None); ("np", None); ("plt", None); ("cdist", None);
    ("logging", None);
    ("calc_similarity_matrix", Some def_calc_similarity_matrix);
    ("init_r_array", Some def_init_r_array);
    ("a_array_update", Some def_a_array_update);
    ("r_array_update", Some def_r_array_update);
    ("afprop_vec2", None) ].

(** ** [afprop_vec2] *)

(** The four parameter checks, in source order. *)
Definition validate (num_cluster_pref iterations damp_c num_stable_iters : pynum)
  : py unit :=
  if negb (num_eqb num_cluster_pref 1) && negb (num_eqb num_cluster_pref 2)
  then inl (ValueError
         "Enter valid indication (1 or 2) of cluster number preference.")
  else if num_ltb iterations 1 || negb (type_is_int iterations)
  then inl (ValueError "Enter a valid number of iterations.")
  else if num_leb damp_c 0 || num_gtb damp_c 1
  then inl (ValueError "Enter a valid damping constant.")
  else if num_ltb num_stable_iters 1
          || num_gt num_stable_iters iterations
          || negb (type_is_int num_stable_iters)
  then inl (ValueError
         "Enter a valid number of iterations to check for stability.")
  else inr tt.

(** An array dimension or slice bound must be of an integer type. *)
Definition as_int (x : pynum) : py Z :=
  match int_val x with
  | Some z => inr z
  | None => inl (TypeError "'float' object cannot be interpreted as an integer")
  end.

(** The array argument at position [i] after a call. *)
Definition arg_tensor (args : list pyval) (i : nat) : py tensor :=
  match args !! i with
  | Some (VTensor t) => inr t
  | _ => inl (TypeError "argument is not an array")
  end.

(** [t[niter] = v]: a matrix of the slice's shape replaces the slice, a
    number fills it. *)
Definition assign_slice (t : tensor) (niter : nat) (v : pyval) : py tensor :=
  old <- idx t niter ;;
  match v with
  | VMatrix m =>
      if same_shape m old then inr (<[niter := m]> t)
      else inl (ValueError "could not broadcast input array")
  | VNum x =>
      q <- exact_val x ;;
      inr (<[niter := (fun row : vec => (fun _ => q) <$> row) <$> old]> t)
  | _ => inl (TypeError "float() argument must be a string or a number")
  end.

(** Line 124: [a_array[niter] = a_array_update(num_data_pts, niter,
    r_array, damp_c, a_array)], on the pair [(a_array, r_array)]. *)
Definition update_a_call (g : globals) (num_data_pts : nat) (damp_c : pynum)
    (niter : nat) (st : tensor * tensor) : py (tensor * tensor) :=
  let a_array := fst st in
  let r_array := snd st in
  c <- call g "a_array_update"
         [VNum (PyInt (Z.of_nat num_data_pts)); VNum (PyInt (Z.of_nat niter));
          VTensor r_array; VNum damp_c; VTensor a_array] ;;
  r_array <- arg_tensor (fst c) 2 ;;
  a_array <- arg_tensor (fst c) 4 ;;
  a_array <- assign_slice a_array niter (snd c) ;;
  inr (a_array, r_array).

(** Lines 125-127: [r_array[niter] = r_array_update(num_data_pts, niter,
    a_array, s_matrix, damp_c, r_array)]. *)
Definition update_r_call (g : globals) (num_data_pts : nat) (s_matrix : pyval)
    (damp_c : pynum) (niter : nat) (st : tensor * tensor) : py (tensor * tensor) :=
  let a_array := fst st in
  let r_array := snd st in
  c <- call g "r_array_update"
         [VNum (PyInt (Z.of_nat num_data_pts)); VNum (PyInt (Z.of_nat niter));
          VTensor a_array; s_matrix; VNum damp_c; VTensor r_array] ;;
  a_array <- arg_tensor (fst c) 2 ;;
  r_array <- arg_tensor (fst c) 5 ;;
  r_array <- assign_slice r_array niter (snd c) ;;
  inr (a_array, r_array).

(** Lines 124-127: the two update calls of one iteration. *)
Definition mp_step (g : globals) (num_data_pts : nat) (s_matrix : pyval)
    (damp_c : pynum) (niter : nat) (st : tensor * tensor) : py (tensor * tensor) :=
  st <- update_a_call g num_data_pts damp_c niter st ;;
  update_r_call g num_data_pts s_matrix damp_c niter st.

(** [np.argmax] of a one-dimensional array: the first position that holds
    the maximum. *)
Fixpoint argmax_from (best_i : nat) (best : Q) (i : nat) (l : list Q) : nat :=
  match l with
  | [] => best_i
  | x :: l' =>
      if Qlt_bool best x then argmax_from i x (S i) l'
      else argmax_from best_i best (S i) l'
  end.

Definition np_argmax (row : vec) : py nat :=
  match row with
  | [] => inl (ValueError "attempt to get argmax of an empty sequence")
  | x :: row' => inr (argmax_from 0 x 1 row')
  end.

(** [np.argmax(m, axis=1)]. *)
Definition np_argmax_axis1 (m : matrix) : py (list nat) :=
  match m with
  | [] => inl (ValueError "attempt to get argmax of an empty sequence")
  | _ => py_mapM np_argmax m
  end.

(** Lines 129-134: the clustering of iteration [niter]. *)
Definition iteration_clusters (r_array a_array : tensor) (niter : nat)
  : py (list nat) :=
  r_t <- idx r_array niter ;;
  a_t <- idx a_array niter ;;
  r_s_sum_array <- mat_zip Qplus r_t a_t ;;
  np_argmax_axis1 r_s_sum_array.

(** [np.where(mask)[0]]: the positions that hold [True]. *)
Fixpoint where_from (i : nat) (mask : list bool) : list nat :=
  match mask with
  | [] => []
  | b :: mask' => if b then i :: where_from (S i) mask' else where_from (S i) mask'
  end.

Definition np_where (mask : list bool) : list nat := where_from 0 mask.

(** [np.argmax(...) == np.array(range(num_data_pts))]. *)
Definition is_center (clusters : list nat) (num_data_pts : nat) : list bool :=
  zip_with Nat.eqb clusters (seq 0 num_data_pts).

(** [np.unique]: the distinct values, sorted. *)
Definition np_unique (l : list nat) : list nat :=
  merge_sort Nat.le (remove_dups l).

(** What [afprop_vec2] hands back: [None] when the function body ends
    without [return], the 4-tuple [(clusters, exemplars, num_clusters,
    final_iter)], or for two-dimensional data the 5-tuple that starts with
    [cluster_plot], the value of [plt.show()], which is [None]. *)
Inductive afprop_return : Type :=
| RetNone
| Ret4 (clusters exemplars : list nat) (num_clusters final_iter : nat)
| Ret5 (clusters exemplars : list nat) (num_clusters final_iter : nat).

Record loop_state : Type := LoopState {
  ls_a_array : tensor;
  ls_r_array : tensor;
  ls_clusters_prev : list nat;
  ls_iter_stability : list Q;
  ls_stdout : list string
}.

(** [l[lo:hi]] for [0 <= lo <= hi]. *)
Definition py_slice {A : Type} (l : list A) (lo hi : nat) : list A :=
  take (hi - lo) (drop lo l).

Definition stability_msg : string :=
  "Stability not acheived. Consider reducing num_stable_iters.".

(** The body of [for niter in range(1, iterations)].  [step] stands for the
    two update calls.  The result is the state for the next iteration, or
    the printed lines and the value of a [return]. *)
Definition loop_body (step : nat -> tensor * tensor -> py (tensor * tensor))
    (dim num_data_pts iterations num_stable_iters : nat)
    (niter : nat) (st : loop_state)
  : py (loop_state + list string * afprop_return) :=
  ar <- step niter (ls_a_array st, ls_r_array st) ;;
  let a_array := fst ar in
  let r_array := snd ar in
  clusters <- iteration_clusters r_array a_array niter ;;
  let centers := np_where (is_center clusters num_data_pts) in
  iter_stability <-
    (if bool_decide (clusters = ls_clusters_prev st)
     then set_idx (ls_iter_stability st) niter 1%Q
     else inr (ls_iter_stability st)) ;;
  if (num_stable_iters <? niter)
     && forallb (fun x => Qeq_bool x 1)
                (py_slice iter_stability (niter - num_stable_iters) niter)
  then
    let exemplars := centers in
    let num_clusters := length (np_unique clusters) in
    let final_iter := niter + 1 in
    if dim =? 2
    then inr (inr (ls_stdout st, Ret5 clusters exemplars num_clusters final_iter))
    else inr (inr (ls_stdout st, Ret4 clusters exemplars num_clusters final_iter))
  else
    let out := if niter =? iterations - 1
               then ls_stdout st ++ [stability_msg] else ls_stdout st in
    inr (inl (LoopState a_array r_array clusters iter_stability out)).

(** The [for] loop with its early [return]; running off the end of the
    loop is running off the end of the function, which returns [None]. *)
Fixpoint afprop_loop (body : nat -> loop_state -> py (loop_state + list string * afprop_return))
    (niters : list nat) (st : loop_state) : py (list string * afprop_return) :=
  match niters with
  | [] => inr (ls_stdout st, RetNone)
  | niter :: rest =>
      o <- body niter st ;;
      match o with
      | inl st' => afprop_loop body rest st'
      | inr res => inr res
      end
  end.

(** The state before the first iteration (lines 101-119), given the value
    stored in [r_array[0]]. *)
Definition init_state (num_data_pts iterations : nat) (r_array : tensor)
  : loop_state :=
  LoopState (np_zeros3 iterations num_data_pts num_data_pts) r_array
            (replicate num_data_pts 0) (np_zeros iterations) [].

(** The driver.  [mydata] is the point matrix (a data frame has been
    replaced by its values); [g] is the namespace in which the global names
    of the body are looked up. *)
Definition afprop_vec2 (g : globals) (mydata : matrix)
    (num_cluster_pref iterations damp_c num_stable_iters : pynum)
  : py (list string * afprop_return) :=
  _ <- validate num_cluster_pref iterations damp_c num_stable_iters ;;
  let num_data_pts := shape0 mydata in
  c <- call g "create_s_metric_matrix"
         [VMatrix mydata; VNum (PyInt (Z.of_nat num_data_pts))] ;;
  let s_metric_matrix := snd c in
  c <- call g "create_s_matrix"
         [VMatrix mydata; VNum (PyInt (Z.of_nat num_data_pts));
          VNum num_cluster_pref; s_metric_matrix] ;;
  let s_matrix := snd c in
  iters <- as_int iterations ;;
  let iters := Z.to_nat iters in
  let r_array := np_zeros3 iters num_data_pts num_data_pts in
  c <- call g "init_r_array"
         [VNum (PyInt (Z.of_nat num_data_pts)); s_matrix] ;;
  r_array <- assign_slice r_array 0 (snd c) ;;
  window <- as_int num_stable_iters ;;
  afprop_loop
    (loop_body (mp_step g num_data_pts s_matrix damp_c)
               (shape1 mydata) num_data_pts iters (Z.to_nat window))
    (seq 1 (iters - 1))
    (init_state num_data_pts iters r_array).

(** ** Definitions used in the statements *)

(** The maximum of a row, as a total function for statements. *)
Definition row_max (row : vec) : Q :=
  match row with
  | [] => 0%Q
  | x :: row' => foldl Qmax x row'
  end.

(** Total accessors for statements: entries outside the array read 0. *)
Definition entry (m : matrix) (i k : nat) : Q :=
  default 0%Q (m !! i ≫= (.!! k)).

Definition entry3 (t : tensor) (h i k : nat) : Q :=
  entry (default [] (t !! h)) i k.

(** A history array of shape [(iterations, n, n)]. *)
Definition square (n : nat) (m : matrix) : Prop :=
  length m = n /\ forall row, row ∈ m -> length row = n.

Definition cube (iterations n : nat) (t : tensor) : Prop :=
  length t = iterations /\ forall m, m ∈ t -> square n m.

(** The update terms as the design document writes them: the sum of the
    positive parts of column [k] of the previous responsibilities over the
    rows [j < n] outside [excl]. *)
Definition spec_rectified_sum (r : matrix) (n : nat) (excl : list nat) (k : nat)
  : Q :=
  Qsum ((fun j => Qmax 0 (entry r j k)) <$> filter (fun j => j ∉ excl) (seq 0 n)).

Definition spec_availability_term (r : matrix) (n i k : nat) : Q :=
  if decide (i = k) then spec_rectified_sum r n [k] k
  else Qmin 0 (entry r k k + spec_rectified_sum r n [i; k] k).

(** A decision procedure for [cube] on concrete arrays. *)
Definition is_square (n : nat) (m : matrix) : bool :=
  (length m =? n) && forallb (fun row : vec => length row =? n) m.

Definition is_cube (iterations n : nat) (t : tensor) : bool :=
  (length t =? iterations) && forallb (is_square n) t.

(** The entries of a matrix outside its diagonal, row by row. *)
Definition off_diagonal (m : matrix) : list Q :=
  concat (imap (fun i (row : vec) => delete i row) m).

Definition ret_clusters (ret : afprop_return) : option (list nat) :=
  match ret with
  | RetNone => None
  | Ret4 clusters _ _ _ | Ret5 clusters _ _ _ => Some clusters
  end.

Definition ret_exemplars (ret : afprop_return) : option (list nat) :=
  match ret with
  | RetNone => None
  | Ret4 _ exemplars _ _ | Ret5 _ exemplars _ _ => Some exemplars
  end.

Definition ret_num_clusters (ret : afprop_return) : option nat :=
  match ret with
  | RetNone => None
  | Ret4 _ _ num_clusters _ | Ret5 _ _ num_clusters _ => Some num_clusters
  end.


(** The tuple built at the [return] of iteration [niter]. *)
Definition make_return (dim num_data_pts niter : nat) (clusters : list nat)
  : afprop_return :=
  (if dim =? 2 then Ret5 else Ret4)
    clusters (np_where (is_center clusters num_data_pts))
    (length (np_unique clusters)) (niter + 1).

(** The test of line 149 on the stability flags. *)
Definition window_stable (iter_stability : list Q) (num_stable_iters niter : nat)
  : bool :=
  (num_stable_iters <? niter)
  && forallb (fun x => Qeq_bool x 1)
             (py_slice iter_stability (niter - num_stable_iters) niter).

Definition argmax_total (row : vec) : nat :=
  match row with
  | [] => 0
  | x :: row' => argmax_from 0 x 1 row'
  end.

(** The parameters that pass the four checks of lines 76-89: the mode
    equals 1 or 2, the iteration count is a Python [int] of at least 1, the
    damping is above 0 and at most 1 or is NaN (which neither comparison of
    line 82 rejects), and the window is a Python [int] between 1 and the
    iteration count. *)
Definition valid_params (num_cluster_pref iterations damp_c num_stable_iters : pynum)
  : Prop :=
  (exists x, num_val num_cluster_pref = Some x /\ ((x == 1)%Q \/ (x == 2)%Q)) /\
  (exists n, iterations = PyInt n /\ (1 <= n)%Z) /\
  (damp_c = PyNaN \/
   exists x, num_val damp_c = Some x /\ (0 < x)%Q /\ (x <= 1)%Q) /\
  (exists m n, num_stable_iters = PyInt m /\ iterations = PyInt n /\
               (1 <= m <= n)%Z).

(** The valid parameters in the words of the design document: the mode is
    1 or 2, the iteration count a positive integer, the damping in (0,1],
    the window a positive integer not above the iteration count. *)
Definition spec_valid_params
    (num_cluster_pref iterations damp_c num_stable_iters : pynum) : Prop :=
  (exists x, num_val num_cluster_pref = Some x /\ ((x == 1)%Q \/ (x == 2)%Q)) /\
  (exists n, int_val iterations = Some n /\ (1 <= n)%Z) /\
  (exists x, num_val damp_c = Some x /\ (0 < x)%Q /\ (x <= 1)%Q) /\
  (exists m n, int_val num_stable_iters = Some m /\ int_val iterations = Some n /\
               (1 <= m <= n)%Z).

(** The arrays after [t] iterations of the update step, and the cluster
    assignment of iteration [t]: what the loop computes when no [return]
    interrupts it. *)
Fixpoint mp_iterate (step : nat -> tensor * tensor -> py (tensor * tensor))
    (t : nat) (st0 : tensor * tensor) : py (tensor * tensor) :=
  match t with
  | 0 => inr st0
  | S t' => st <- mp_iterate step t' st0 ;; step (S t') st
  end.

Definition clusters_at (step : nat -> tensor * tensor -> py (tensor * tensor))
    (st0 : tensor * tensor) (t : nat) : py (list nat) :=
  st <- mp_iterate step t st0 ;; iteration_clusters (snd st) (fst st) t.

(** The test of line 149 in terms of the assignments [c 0, c 1, ...], where
    [c 0] is the initial [clusters_prev]: the flags of the [w] iterations
    before [t] are set, that is, each of the assignments [t - w .. t - 1]
    equals its predecessor. *)
Definition fires (c : nat -> list nat) (w t : nat) : Prop :=
  w < t /\ forall j, t - w <= j < t -> c j = c (j - 1).

Definition firesb (c : nat -> list nat) (w t : nat) : bool :=
  (w <? t) && forallb (fun j => bool_decide (c j = c (j - 1))) (seq (t - w) w).

Fixpoint first_fire (c : nat -> list nat) (w : nat) (niters : list nat)
  : option nat :=
  match niters with
  | [] => None
  | t :: rest => if firesb c w t then Some t else first_fire c w rest
  end.

(** The flag recorded for iteration [j] once iteration [t] is done. *)
Definition flag_value (c : nat -> list nat) (t j : nat) : Q :=
  if bool_decide (1 <= j <= t /\ c j = c (j - 1)) then 1%Q else 0%Q.

(** The state of the loop after iteration [t], for a run whose assignments
    are [c]. *)
Definition loop_inv (step : nat -> tensor * tensor -> py (tensor * tensor))
    (n iters : nat) (r_array0 : tensor) (c : nat -> list nat)
    (t : nat) (st : loop_state) : Prop :=
  mp_iterate step t (np_zeros3 iters n n, r_array0)
  = inr (ls_a_array st, ls_r_array st) /\
  ls_clusters_prev st = c t /\
  length (ls_iter_stability st) = iters /\
  (forall j, j < iters -> ls_iter_stability st !! j = Some (flag_value c t j)) /\
  ls_stdout st = if (1 <=? t) && (t =? iters - 1) then [stability_msg] else [].

(** An instance of the [step] parameter of [loop_body], used to exhibit
    runs of the loop: each helper is called with the parameters of its
    [def], updates its array argument in place and returns the slice it
    wrote, which is stored in the same place.  It is not the step of the
    driver, [mp_step], whose call of [r_array_update] passes one argument
    more and raises. *)
Definition update_step (num_data_pts : nat) (s_matrix : matrix) (damp_c : Q)
    (niter : nat) (st : tensor * tensor) : py (tensor * tensor) :=
  res <- a_array_update num_data_pts (Z.of_nat niter) (snd st) damp_c (fst st) ;;
  a_array <- assign_slice (fst res) niter (VMatrix (snd res)) ;;
  res <- r_array_update (Z.of_nat niter) a_array s_matrix damp_c (snd st) ;;
  r_array <- assign_slice (fst res) niter (VMatrix (snd res)) ;;
  inr (a_array, r_array).

(** The namespace of the module with the two unbound names bound to a
    function that returns [None]. *)
Definition returns_none : callable := fun args => inr (args, VNone).

Definition temp_globals_bound : globals :=
  ("create_s_metric_matrix", Some returns_none)
  :: ("create_s_matrix", Some returns_none) :: temp_globals.

(** Three points on a line, mode 2, damping 1: the similarity matrix and
    the responsibility history with [R0] stored in slice 0. *)
Definition line3 : matrix := [[0]; [1]; [2]]%Q.
Definition line3_s : matrix := [[-1; -1; -4]; [-1; -1; -1]; [-4; -1; -1]]%Q.
Definition line3_r0 : matrix := [[0; 0; -3]; [0; 0; 0]; [-3; 0; 0]]%Q.
Definition line3_c (t : nat) : list nat := if t =? 0 then [0; 0; 0] else [0; 0; 1].

(** * Properties *)

(** ** The error monad and indexing *)

Lemma py_bind_inv {A B : Type} (c : py A) (k : A -> py B) (b : B) :
  py_bind c k = inr b -> exists a, c = inr a /\ k a = inr b.
Proof. destruct c as [e|a]; simpl; [discriminate|]. intros H. by exists a. Qed.

Lemma py_mapM_fmap {A B : Type} (f : A -> py B) (g : A -> B) (xs : list A) :
  (forall x, x ∈ xs -> f x = inr (g x)) -> py_mapM f xs = inr (g <$> xs).
Proof.
  induction xs as [|x xs IH]; intros Hf; simpl; [done|].
  rewrite (Hf x) by left. simpl.
  rewrite IH; [done|]. intros y Hy. apply Hf. by right.
Qed.

Lemma idx_Some {A : Type} (l : list A) (i : nat) (x : A) :
  l !! i = Some x -> idx l i = inr x.
Proof. unfold idx. by intros ->. Qed.

Lemma py_idx_nonneg {A : Type} (l : list A) (z : Z) :
  (0 <= z)%Z -> py_idx l z = idx l (Z.to_nat z).
Proof.
  intros Hz. unfold py_idx. destruct (Z.ltb_spec z 0); [lia|done].
Qed.

Lemma py_pos_nonneg {A : Type} (l : list A) (z : Z) :
  (0 <= z)%Z -> py_pos l z = Z.to_nat z.
Proof.
  intros Hz. unfold py_pos. destruct (Z.ltb_spec z 0); [lia|done].
Qed.

Lemma set_idx_lt {A : Type} (l : list A) (i : nat) (x : A) :
  i < length l -> set_idx l i x = inr (<[i := x]> l).
Proof. intros H. unfold set_idx. by rewrite decide_True. Qed.

(** The invariant rule of [for_each]: [P done s] holds of the state after
    the elements [done] have been processed. *)
Lemma for_each_inv {S : Type} (P : list nat -> S -> Prop)
    (body : nat -> S -> py S) (xs : list nat) (s0 : S) :
  P [] s0 ->
  (forall done x rest s, xs = done ++ x :: rest -> P done s ->
     exists s', body x s = inr s' /\ P (done ++ [x]) s') ->
  exists s', for_each xs body s0 = inr s' /\ P xs s'.
Proof.
  intros H0 Hstep.
  cut (forall rest done s, xs = done ++ rest -> P done s ->
         exists s', for_each rest body s = inr s' /\ P xs s').
  { intros H. by apply (H xs [] s0). }
  induction rest as [|x rest IH]; intros done s Hxs HP; simpl.
  - exists s. rewrite app_nil_r in Hxs. by subst.
  - destruct (Hstep done x rest s Hxs HP) as (s' & Hb & HP').
    rewrite Hb. simpl. apply (IH (done ++ [x])); [|done].
    by rewrite <- app_assoc.
Qed.

(** ** Maxima, minima and sums *)

Lemma Qmax_cases (x y : Q) : Qmax x y = x \/ Qmax x y = y.
Proof.
  unfold Qmax, GenericMinMax.gmax. destruct (x ?= y)%Q; auto.
Qed.

Lemma Qmin_cases (x y : Q) : Qmin x y = x \/ Qmin x y = y.
Proof.
  unfold Qmin, GenericMinMax.gmin. destruct (x ?= y)%Q; auto.
Qed.

Lemma foldl_Qmax_elem (l : list Q) (x : Q) : foldl Qmax x l ∈ x :: l.
Proof.
  revert x. induction l as [|y l IH]; intros x; simpl; [by left|].
  specialize (IH (Qmax x y)).
  apply elem_of_cons in IH as [->|IH].
  - destruct (Qmax_cases x y) as [->| ->]; [left|right; left].
  - by do 2 right.
Qed.

Lemma foldl_Qmax_ge (l : list Q) (x y : Q) :
  y ∈ x :: l -> (y <= foldl Qmax x l)%Q.
Proof.
  revert x y. induction l as [|z l IH]; intros x y Hy; simpl.
  - apply list_elem_of_singleton in Hy as ->. apply Qle_refl.
  - assert (Hx : (x <= foldl Qmax (Qmax x z) l)%Q).
    { apply Qle_trans with (Qmax x z); [apply Q.le_max_l|]. apply IH. left. }
    apply elem_of_cons in Hy as [->|Hy]; [done|].
    apply elem_of_cons in Hy as [->|Hy].
    + apply Qle_trans with (Qmax x z); [apply Q.le_max_r|]. apply IH. left.
    + apply IH. by right.
Qed.

Lemma foldl_Qmin_elem (l : list Q) (x : Q) : foldl Qmin x l ∈ x :: l.
Proof.
  revert x. induction l as [|y l IH]; intros x; simpl; [by left|].
  specialize (IH (Qmin x y)).
  apply elem_of_cons in IH as [->|IH].
  - destruct (Qmin_cases x y) as [->| ->]; [left|right; left].
  - by do 2 right.
Qed.

Lemma foldl_Qmin_le (l : list Q) (x y : Q) :
  y ∈ x :: l -> (foldl Qmin x l <= y)%Q.
Proof.
  revert x y. induction l as [|z l IH]; intros x y Hy; simpl.
  - apply list_elem_of_singleton in Hy as ->. apply Qle_refl.
  - assert (Hx : (foldl Qmin (Qmin x z) l <= x)%Q).
    { apply Qle_trans with (Qmin x z); [|apply Q.le_min_l]. apply IH. left. }
    apply elem_of_cons in Hy as [->|Hy]; [done|].
    apply elem_of_cons in Hy as [->|Hy].
    + apply Qle_trans with (Qmin x z); [|apply Q.le_min_r]. apply IH. left.
    + apply IH. by right.
Qed.

Lemma np_min_spec (l : list Q) :
  l <> [] ->
  exists mn, np_min l = inr mn /\ mn ∈ l /\ forall y, y ∈ l -> (mn <= y)%Q.
Proof.
  destruct l as [|x l]; [done|]. intros _. exists (foldl Qmin x l).
  split; [done|]. split; [apply foldl_Qmin_elem|apply foldl_Qmin_le].
Qed.

(** ** Iteration 0 *)

Lemma np_max_row_max (row : vec) : row <> [] -> np_max row = inr (row_max row).
Proof. by destruct row. Qed.

Lemma row_max_elem (row : vec) : row <> [] -> row_max row ∈ row.
Proof. destruct row; [done|]. intros _. apply foldl_Qmax_elem. Qed.

Lemma row_max_ge (row : vec) (x : Q) : x ∈ row -> (x <= row_max row)%Q.
Proof. destruct row; [by intros ?%elem_of_nil|]. apply foldl_Qmax_ge. Qed.

Lemma init_r_array_eq (s_matrix : matrix) :
  s_matrix <> [] ->
  (forall row, row ∈ s_matrix -> row <> []) ->
  init_r_array s_matrix
  = inr ((fun row : vec => (fun x => (x - row_max row)%Q) <$> row) <$> s_matrix).
Proof.
  intros Hrows Hne. unfold init_r_array.
  destruct s_matrix as [|row0 s] eqn:Hs; [done|]. rewrite <- Hs in *.
  apply py_mapM_fmap.
  intros row Hrow. by rewrite np_max_row_max by auto.
Qed.

Lemma lookup_np_zeros3 (t n m h i k : nat) :
  h < t -> i < n -> k < m ->
  np_zeros3 t n m !! h = Some (np_zeros2 n m) /\
  np_zeros2 n m !! i = Some (np_zeros m) /\
  np_zeros m !! k = Some 0%Q.
Proof.
  intros. unfold np_zeros3, np_zeros2, np_zeros.
  by rewrite !lookup_replicate_2.
Qed.

(** C5. At iteration 0 the responsibilities are R0[i,k] = S[i,k] - mx_i,
    where mx_i is the maximum of row i of S over all columns (it is an entry
    of the row and bounds every entry, the diagonal one included); and the
    availabilities the driver starts from are all zero.  The similarity
    matrix has at least one row and no row without columns: otherwise the
    row maxima do not exist and [init_r_array] raises. *)
Theorem init_r_array_spec (s_matrix : matrix) :
  s_matrix <> [] ->
  (forall row, row ∈ s_matrix -> row <> []) ->
  exists r0, init_r_array s_matrix = inr r0 /\
    length r0 = length s_matrix /\
    (forall i row, s_matrix !! i = Some row ->
       exists mx r0_i,
         mx ∈ row /\ (forall k' x, row !! k' = Some x -> (x <= mx)%Q) /\
         r0 !! i = Some r0_i /\ length r0_i = length row /\
         forall k x, row !! k = Some x -> r0_i !! k = Some (x - mx)%Q) /\
    forall iterations n r_array i k,
      0 < iterations -> i < n -> k < n ->
      get3 (ls_a_array (init_state n iterations r_array)) 0 i k = inr 0%Q.
Proof.
  intros Hrows Hne. eexists. split; [by apply init_r_array_eq|].
  split; [by rewrite length_fmap|]. split.
  - intros i row Hi. exists (row_max row). eexists.
    assert (Hrow : row ∈ s_matrix) by (eapply list_elem_of_lookup_2; eauto).
    split; [apply row_max_elem; auto|]. split.
    { intros k' x Hk. apply row_max_ge. eapply list_elem_of_lookup_2; eauto. }
    split; [by rewrite list_lookup_fmap, Hi|].
    split; [by rewrite length_fmap|].
    intros k x Hk. by rewrite list_lookup_fmap, Hk.
  - intros iterations n r_array i k Ht Hi Hk. simpl. unfold get3.
    destruct (lookup_np_zeros3 iterations n n 0 i k) as (H1 & H2 & H3); try done.
    rewrite py_idx_nonneg by lia. change (Z.to_nat 0) with 0.
    rewrite (idx_Some _ _ _ H1). simpl.
    rewrite (idx_Some _ _ _ H2). simpl.
    by rewrite (idx_Some _ _ _ H3).
Qed.

Lemma init_r_array_spec_witness :
  ([[-1; -1]; [-4; -1]]%Q : matrix) <> [] /\
  (forall row : vec, row ∈ [[-1; -1]; [-4; -1]]%Q -> row <> []) /\
  exists r0, init_r_array [[-1; -1]; [-4; -1]]%Q = inr r0 /\
    length r0 = 2.
Proof.
  assert (H0 : ([[-1; -1]; [-4; -1]]%Q : matrix) <> []) by discriminate.
  assert (H : forall row : vec, row ∈ [[-1; -1]; [-4; -1]]%Q -> row <> []).
  { intros row Hrow.
    apply elem_of_cons in Hrow as [->|Hrow]; [done|].
    apply elem_of_cons in Hrow as [->|Hrow]; [done|].
    by apply elem_of_nil in Hrow. }
  split; [exact H0|]. split; [exact H|].
  destruct (init_r_array_spec _ H0 H) as (r0 & Hr0 & Hlen & _).
  exists r0. split; [exact Hr0|exact Hlen].
Defined.

(** ** Sums over index ranges *)

Lemma Qsum_zip_with_seq (u v : vec) (f : nat -> Q) (s : nat) :
  length u = length v ->
  (forall j x y, u !! j = Some x -> v !! j = Some y -> (x * y == f (s + j)%nat)%Q) ->
  (Qsum (zip_with Qmult u v) == Qsum (f <$> seq s (length u)))%Q.
Proof.
  revert v s. induction u as [|x u IH]; intros [|y v] s Hlen Hf;
    simpl in *; try discriminate; [reflexivity|].
  rewrite (Hf 0 x y eq_refl eq_refl). rewrite Nat.add_0_r.
  rewrite (IH v (S s)); [reflexivity|lia|].
  intros j x' y' Hx Hy. rewrite (Hf (S j) x' y' Hx Hy).
  by replace (s + S j) with (S s + j) by lia.
Qed.

Lemma Qsum_filter (P : nat -> Prop) `{forall j, Decision (P j)}
    (g : nat -> Q) (l : list nat) :
  (Qsum (g <$> filter P l)
   == Qsum ((fun j => if decide (P j) then g j else 0) <$> l))%Q.
Proof.
  induction l as [|j l IH]; simpl; [reflexivity|].
  rewrite filter_cons. destruct (decide (P j)); simpl.
  - by rewrite IH.
  - rewrite IH, Qplus_0_l. reflexivity.
Qed.

Lemma Qlt_bool_spec (x y : Q) : Qlt_bool x y = true <-> (x < y)%Q.
Proof.
  unfold Qlt_bool. rewrite negb_true_iff.
  destruct (Qle_bool y x) eqn:E.
  - apply Qle_bool_iff in E. split; [discriminate|]. intros. lra.
  - split; [intros _|done].
    apply Qnot_le_lt. intros Hle. apply Qle_bool_iff in Hle. congruence.
Qed.

Lemma Qlt_bool_false (x y : Q) : Qlt_bool x y = false <-> (y <= x)%Q.
Proof.
  unfold Qlt_bool. rewrite negb_false_iff. apply Qle_bool_iff.
Qed.

(** ** The availability update *)

Lemma square_lookup (n : nat) (m : matrix) (i k : nat) :
  square n m -> i < n -> k < n ->
  exists row, m !! i = Some row /\ length row = n /\
              row !! k = Some (entry m i k).
Proof.
  intros [Hlen Hrows] Hi Hk.
  destruct (lookup_lt_is_Some_2 m i) as [row Hrow]; [lia|].
  assert (Hr : length row = n).
  { apply Hrows. eapply list_elem_of_lookup_2; eauto. }
  destruct (lookup_lt_is_Some_2 row k) as [x Hx]; [lia|].
  exists row. split; [done|]. split; [done|].
  unfold entry. rewrite Hrow. simpl. by rewrite Hx.
Qed.

Lemma cube_lookup (iterations n : nat) (t : tensor) (h : nat) :
  cube iterations n t -> h < iterations ->
  exists m, t !! h = Some m /\ square n m.
Proof.
  intros [Hlen Hsq] Hh.
  destruct (lookup_lt_is_Some_2 t h) as [m Hm]; [lia|].
  exists m. split; [done|]. apply Hsq. eapply list_elem_of_lookup_2; eauto.
Qed.

Lemma get3_entry (iterations n : nat) (t : tensor) (z : Z) (i k : nat) :
  cube iterations n t -> (0 <= z < Z.of_nat iterations)%Z -> i < n -> k < n ->
  get3 t z i k = inr (entry3 t (Z.to_nat z) i k).
Proof.
  intros Hc Hz Hi Hk. unfold get3, entry3.
  rewrite py_idx_nonneg by lia.
  destruct (cube_lookup _ _ _ (Z.to_nat z) Hc) as (m & Hm & Hsq); [lia|].
  rewrite (idx_Some _ _ _ Hm), Hm. simpl.
  destruct (square_lookup _ _ i k Hsq Hi Hk) as (row & Hrow & _ & Hx).
  rewrite (idx_Some _ _ _ Hrow). simpl. by apply idx_Some.
Qed.

Lemma get_col3_entry (iterations n : nat) (t : tensor) (z : Z) (k : nat) :
  cube iterations n t -> (0 <= z < Z.of_nat iterations)%Z -> k < n ->
  get_col3 t z k
  = inr ((fun j => entry3 t (Z.to_nat z) j k) <$> seq 0 n).
Proof.
  intros Hc Hz Hk. unfold get_col3, entry3.
  rewrite py_idx_nonneg by lia.
  destruct (cube_lookup _ _ _ (Z.to_nat z) Hc) as (m & Hm & Hsq); [lia|].
  rewrite (idx_Some _ _ _ Hm), Hm. simpl.
  rewrite (py_mapM_fmap _ (fun row : vec => default 0%Q (row !! k))).
  - f_equal. apply list_eq. intros j.
    rewrite !list_lookup_fmap. destruct Hsq as [Hlen Hrows].
    destruct (decide (j < n)) as [Hj|Hj].
    + rewrite lookup_seq_lt by done. simpl.
      destruct (lookup_lt_is_Some_2 m j) as [row Hrow]; [lia|].
      rewrite Hrow. simpl. unfold entry. by rewrite Hrow.
    + rewrite lookup_seq_ge by lia. by rewrite lookup_ge_None_2 by lia.
  - intros row Hrow. destruct Hsq as [Hlen Hrows].
    destruct (lookup_lt_is_Some_2 row k) as [x Hx]; [rewrite Hrows by done; lia|].
    by rewrite (idx_Some _ _ _ Hx), Hx.
Qed.

(** The masked dot product of [a_array_update] is the rectified sum: with
    [temp] zero on [excl] and one elsewhere, masking the negative entries
    of the column and taking the dot product adds up the positive parts of
    the entries outside [excl]. *)
Lemma rectified_dot (n : nat) (c : nat -> Q) (excl : list nat) (temp : vec) :
  length temp = n ->
  (forall j, j < n -> temp !! j = Some (if decide (j ∈ excl) then 0 else 1)%Q) ->
  exists temp' s,
    mask_zero temp ((fun x => Qlt_bool x 0) <$> (c <$> seq 0 n)) = inr temp' /\
    np_dot (c <$> seq 0 n) temp' = inr s /\
    (s == Qsum ((fun j => Qmax 0 (c j))
                  <$> filter (fun j => j ∉ excl) (seq 0 n)))%Q.
Proof.
  intros Hlen Htemp.
  unfold mask_zero. rewrite decide_True by (by rewrite !length_fmap, length_seq).
  eexists. eexists. split; [reflexivity|].
  unfold np_dot. rewrite decide_True; cycle 1.
  { rewrite length_zip_with, !length_fmap, length_seq. lia. }
  split; [reflexivity|].
  rewrite Qsum_filter.
  replace n with (length (c <$> seq 0 n)) at 3
    by (by rewrite length_fmap, length_seq).
  apply Qsum_zip_with_seq.
  { rewrite length_zip_with, !length_fmap, length_seq. lia. }
  intros j x y Hx Hy. simpl.
  apply list_lookup_fmap_Some in Hx as (j' & -> & Hj').
  apply lookup_seq in Hj' as [-> Hj]. simpl in *.
  rewrite lookup_zip_with, (Htemp j Hj) in Hy. simpl in Hy.
  rewrite !list_lookup_fmap, lookup_seq_lt in Hy by done. simpl in Hy.
  injection Hy as <-.
  destruct (Qlt_bool (c j) 0) eqn:Hneg.
  - apply Qlt_bool_spec in Hneg.
    destruct (decide (j ∉ excl)); [|ring].
    rewrite Q.max_l by lra. ring.
  - apply Qlt_bool_false in Hneg.
    destruct (decide (j ∈ excl)), (decide (j ∉ excl)); try done; try ring.
    rewrite Q.max_r by lra. ring.
Qed.

Lemma temp_vec_one (n k : nat) :
  k < n ->
  let temp := <[k := 0%Q]> (np_ones n) in
  length temp = n /\
  forall j, j < n -> temp !! j = Some (if decide (j ∈ [k]) then 0 else 1)%Q.
Proof.
  intros Hk. unfold np_ones.
  split; [by rewrite length_insert, length_replicate|].
  intros j Hj. destruct (decide (j ∈ [k])) as [Hin|Hin].
  - apply list_elem_of_singleton in Hin as ->.
    by rewrite list_lookup_insert_eq by (by rewrite length_replicate).
  - rewrite list_lookup_insert_ne.
    + by apply lookup_replicate_2.
    + intros ->. apply Hin. by left.
Qed.

Lemma temp_vec_two (n i k : nat) :
  i < n -> k < n ->
  let temp := <[i := 0%Q]> (<[k := 0%Q]> (np_ones n)) in
  length temp = n /\
  forall j, j < n -> temp !! j = Some (if decide (j ∈ [i; k]) then 0 else 1)%Q.
Proof.
  intros Hi Hk.
  split; [unfold np_ones; by rewrite !length_insert, length_replicate|].
  intros j Hj. destruct (temp_vec_one n k Hk) as [Hlen H1].
  destruct (decide (j = i)) as [->|Hji].
  - rewrite list_lookup_insert_eq by (by rewrite Hlen).
    rewrite decide_True; [done|by left].
  - rewrite list_lookup_insert_ne by done. rewrite H1 by done.
    destruct (decide (j ∈ [k])) as [Hin|Hin].
    + rewrite decide_True; [done|by right].
    + rewrite decide_False; [done|].
      intros [?|?]%elem_of_cons; done.
Qed.

Lemma elem_of_insert_inv {A : Type} (l : list A) (i : nat) (x y : A) :
  y ∈ <[i := x]> l -> y = x \/ y ∈ l.
Proof.
  intros [j Hj]%list_elem_of_lookup.
  apply list_lookup_insert_Some in Hj as [(_ & -> & _)|[_ Hj]]; [by left|].
  right. eapply list_elem_of_lookup_2; eauto.
Qed.

Lemma square_insert_row (n : nat) (m : matrix) (i : nat) (row : vec) :
  square n m -> length row = n -> square n (<[i := row]> m).
Proof.
  intros [Hlen Hrows] Hrow. split; [by rewrite length_insert|].
  intros row' [->|Hin]%elem_of_insert_inv; auto.
Qed.

Lemma cube_insert (iterations n : nat) (t : tensor) (h : nat) (m : matrix) :
  cube iterations n t -> square n m -> cube iterations n (<[h := m]> t).
Proof.
  intros [Hlen Hsq] Hm. split; [by rewrite length_insert|].
  intros m' [->|Hin]%elem_of_insert_inv; auto.
Qed.

Lemma set3_spec (iterations n : nat) (t : tensor) (z : Z) (i k : nat) (x : Q) :
  cube iterations n t -> (0 <= z < Z.of_nat iterations)%Z -> i < n -> k < n ->
  exists t',
    set3 t z i k x = inr t' /\
    cube iterations n t' /\
    (forall h, h <> Z.to_nat z -> t' !! h = t !! h) /\
    entry3 t' (Z.to_nat z) i k = x /\
    (forall i' k', (i', k') <> (i, k) ->
       entry3 t' (Z.to_nat z) i' k' = entry3 t (Z.to_nat z) i' k').
Proof.
  intros Hc Hz Hi Hk. unfold set3.
  rewrite py_idx_nonneg, py_pos_nonneg by lia.
  destruct (cube_lookup _ _ _ (Z.to_nat z) Hc) as (m & Hm & Hsq); [lia|].
  rewrite (idx_Some _ _ _ Hm). simpl.
  destruct (square_lookup _ _ i k Hsq Hi Hk) as (row & Hrow & Hlen & _).
  rewrite (idx_Some _ _ _ Hrow). simpl.
  rewrite set_idx_lt by lia. simpl.
  eexists. split; [reflexivity|].
  assert (Hq : Z.to_nat z < length t) by (destruct Hc; lia).
  assert (Him : i < length m) by (destruct Hsq; lia).
  split.
  { apply cube_insert; [done|]. apply square_insert_row; [done|].
    by rewrite length_insert. }
  split.
  { intros h Hh. by rewrite list_lookup_insert_ne. }
  unfold entry3, entry. rewrite list_lookup_insert_eq by done. simpl.
  split.
  - rewrite list_lookup_insert_eq by done. simpl.
    by rewrite list_lookup_insert_eq by lia.
  - intros i' k' Hne. rewrite Hm. simpl.
    destruct (decide (i' = i)) as [->|Hi'].
    + rewrite list_lookup_insert_eq by done. rewrite Hrow. simpl.
      rewrite list_lookup_insert_ne; [done|]. congruence.
    + by rewrite list_lookup_insert_ne.
Qed.

Lemma a_array_update_at_spec (iterations n : nat) (niter : Z)
    (r_array a : tensor) (damp_c : Q) (i k : nat) :
  cube iterations n r_array -> cube iterations n a ->
  (1 <= niter < Z.of_nat iterations)%Z -> i < n -> k < n ->
  exists a',
    a_array_update_at n niter r_array damp_c i k a = inr a' /\
    cube iterations n a' /\
    (forall h, h <> Z.to_nat niter -> a' !! h = a !! h) /\
    (entry3 a' (Z.to_nat niter) i k
     == damp_c * spec_availability_term
                   (default [] (r_array !! Z.to_nat (niter - 1))) n i k
        + (1 - damp_c) * entry3 a (Z.to_nat (niter - 1)) i k)%Q /\
    (forall i' k', (i', k') <> (i, k) ->
       entry3 a' (Z.to_nat niter) i' k' = entry3 a (Z.to_nat niter) i' k').
Proof.
  intros Hr Ha Hn Hi Hk. unfold a_array_update_at.
  assert (Hp : (0 <= niter - 1 < Z.of_nat iterations)%Z) by lia.
  assert (Hq : (0 <= niter < Z.of_nat iterations)%Z) by lia.
  rewrite !(get_col3_entry iterations n) by done.
  rewrite !(get3_entry iterations n) by done.
  unfold spec_availability_term, spec_rectified_sum.
  destruct (Nat.eqb_spec i k) as [->|Hik]; simpl negb; cbv iota.
  - rewrite decide_True by done.
    rewrite set_idx_lt by (by unfold np_ones; rewrite length_replicate).
    cbn [py_bind].
    destruct (temp_vec_one n k Hk) as [Hlen Htemp].
    destruct (rectified_dot n (fun j => entry3 r_array (Z.to_nat (niter - 1)) j k)
                [k] _ Hlen Htemp) as (temp' & s & Hmask & Hdot & Hs).
    rewrite Hmask. cbn [py_bind]. rewrite Hdot. cbn [py_bind].
    destruct (set3_spec iterations n a niter k k
                (damp_c * s + (1 - damp_c) * entry3 a (Z.to_nat (niter - 1)) k k)%Q
                Ha Hq Hk Hk) as (a' & Hset & Hc' & Hframe & Hval & Hother).
    exists a'. split; [exact Hset|]. split; [done|]. split; [done|].
    split; [|done]. rewrite Hval, Hs. reflexivity.
  - rewrite decide_False by done.
    rewrite set_idx_lt by (by unfold np_ones; rewrite length_replicate).
    cbn [py_bind].
    rewrite set_idx_lt
      by (by unfold np_ones; rewrite length_insert, length_replicate).
    cbn [py_bind].
    destruct (temp_vec_two n i k Hi Hk) as [Hlen Htemp].
    destruct (rectified_dot n (fun j => entry3 r_array (Z.to_nat (niter - 1)) j k)
                [i; k] _ Hlen Htemp) as (temp' & s & Hmask & Hdot & Hs).
    rewrite Hmask. cbn [py_bind]. rewrite Hdot. cbn [py_bind app np_zeros replicate np_min foldl].
    destruct (set3_spec iterations n a niter i k
                (damp_c * Qmin (entry3 r_array (Z.to_nat (niter - 1)) k k + s) 0
                 + (1 - damp_c) * entry3 a (Z.to_nat (niter - 1)) i k)%Q
                Ha Hq Hi Hk) as (a' & Hset & Hc' & Hframe & Hval & Hother).
    exists a'. split; [exact Hset|]. split; [done|]. split; [done|].
    split; [|done]. rewrite Hval, Hs, Q.min_comm. reflexivity.
Qed.

Lemma seq_split_inv (n : nat) (done : list nat) (x : nat) (rest : list nat) :
  seq 0 n = done ++ x :: rest -> x < n /\ x ∉ done.
Proof.
  intros Hsplit. split.
  - assert (Hx : x ∈ seq 0 n).
    { rewrite Hsplit. apply elem_of_app. right. left. }
    apply elem_of_seq in Hx. lia.
  - pose proof (NoDup_seq 0 n) as Hnd. rewrite Hsplit in Hnd.
    apply NoDup_app in Hnd as (_ & Hdisj & _).
    intros Hin. apply (Hdisj x Hin). left.
Qed.

(** The two loops of [a_array_update]: every entry of slice [niter] gets
    its damped value, computed from the slices [niter - 1] of the two
    histories as they were before the call; nothing else changes. *)
Lemma a_array_update_loops (iterations n : nat) (niter : Z)
    (r_array a_array : tensor) (damp_c : Q) (r_prev a_prev : matrix) :
  cube iterations n r_array -> cube iterations n a_array ->
  (1 <= niter < Z.of_nat iterations)%Z ->
  r_array !! Z.to_nat (niter - 1) = Some r_prev ->
  a_array !! Z.to_nat (niter - 1) = Some a_prev ->
  exists a',
    for_each (seq 0 n) (fun i a =>
      for_each (seq 0 n) (fun k a =>
        a_array_update_at n niter r_array damp_c i k a) a) a_array = inr a' /\
    cube iterations n a' /\
    (forall h, h <> Z.to_nat niter -> a' !! h = a_array !! h) /\
    forall i k, i < n -> k < n ->
      (entry3 a' (Z.to_nat niter) i k
       == damp_c * spec_availability_term r_prev n i k
          + (1 - damp_c) * entry a_prev i k)%Q.
Proof.
  intros Hr Ha Hn Hrp Hap.
  set (q := Z.to_nat niter). set (p := Z.to_nat (niter - 1)).
  fold p in Hrp, Hap.
  assert (Hpq : p <> q) by (subst p q; lia).
  set (E := fun (a : tensor) (i k : nat) =>
    (entry3 a q i k
     == damp_c * spec_availability_term r_prev n i k
        + (1 - damp_c) * entry a_prev i k)%Q).
  set (Frame := fun a : tensor =>
    cube iterations n a /\ forall h, h <> q -> a !! h = a_array !! h).
  assert (Hat : forall a i k, Frame a -> i < n -> k < n ->
    exists a', a_array_update_at n niter r_array damp_c i k a = inr a' /\
      Frame a' /\ E a' i k /\
      forall i' k', (i', k') <> (i, k) -> E a i' k' -> E a' i' k').
  { intros a i k [Hc Hf] Hi Hk.
    destruct (a_array_update_at_spec iterations n niter r_array a damp_c i k
                Hr Hc Hn Hi Hk) as (a' & Hrun & Hc' & Hf' & Hval & Hoth).
    exists a'. split; [done|]. split.
    { split; [done|]. intros h Hh. rewrite Hf' by done. by apply Hf. }
    fold p q in Hval, Hoth. rewrite Hrp in Hval. simpl in Hval.
    split.
    - unfold E. rewrite Hval. unfold entry3 at 1.
      rewrite (Hf p Hpq), Hap. reflexivity.
    - intros i' k' Hne HE. unfold E. by rewrite (Hoth i' k' Hne). }
  destruct (for_each_inv
    (fun done a => Frame a /\ forall i k, i ∈ done -> k < n -> E a i k)
    (fun i a => for_each (seq 0 n)
       (fun k a => a_array_update_at n niter r_array damp_c i k a) a)
    (seq 0 n) a_array) as (a' & Hrun & [Hc' Hf'] & HE).
  { split; [by split|]. intros i k Hin. by apply elem_of_nil in Hin. }
  { intros done_i i rest_i a Hsplit_i ([Hc Hf] & Hdone).
    apply seq_split_inv in Hsplit_i as [Hi Hfresh_i].
    destruct (for_each_inv
      (fun done a => Frame a /\
         (forall i' k, i' ∈ done_i -> k < n -> E a i' k) /\
         forall k, k ∈ done -> E a i k)
      (fun k a => a_array_update_at n niter r_array damp_c i k a)
      (seq 0 n) a) as (a1 & Hrun1 & HF1 & Hdone1 & Hrow1).
    { split; [by split|]. split; [done|].
      intros k Hin. by apply elem_of_nil in Hin. }
    { intros done_k k rest_k a0 Hsplit_k (HF0 & Hdone0 & Hrow0).
      apply seq_split_inv in Hsplit_k as [Hk Hfresh_k].
      destruct (Hat a0 i k HF0 Hi Hk) as (a2 & Hrun2 & HF2 & HE2 & Hoth2).
      exists a2. split; [done|]. split; [done|]. split.
      - intros i' k' Hin Hk'. apply Hoth2; [|by apply Hdone0].
        intros [= -> ->]. done.
      - intros k' [Hin| ->%list_elem_of_singleton]%elem_of_app; [|done].
        apply Hoth2; [|by apply Hrow0]. intros [= ->]. done. }
    exists a1. split; [done|]. split; [done|].
    intros i' k' [Hin| ->%list_elem_of_singleton]%elem_of_app Hk'.
    - by apply Hdone1.
    - apply Hrow1. apply elem_of_seq. lia. }
  exists a'. split; [done|]. split; [done|]. split; [done|].
  intros i k Hi Hk. apply HE; [apply elem_of_seq; lia|done].
Qed.

(** C3. One call of [a_array_update] for iteration [niter >= 1] stores, at
    every [(i, k)], the damped value
    [damp_c * term + (1 - damp_c) * A_prev[i,k]], where [term] is
    min(0, r(k,k) + sum over j outside {i,k} of max(0, r(j,k))) for i <> k and
    the unclipped sum over j <> k of max(0, r(j,k)) for i = k, with r the
    responsibilities of iteration [niter - 1].  It holds for every damping
    factor, in particular for those in (0,1].  The other slices of the
    history are left as they were. *)
Theorem a_array_update_spec (iterations n : nat) (niter : Z)
    (r_array a_array : tensor) (damp_c : Q) :
  cube iterations n r_array -> cube iterations n a_array ->
  (1 <= niter < Z.of_nat iterations)%Z ->
  exists a' slice r_prev a_prev,
    a_array_update n niter r_array damp_c a_array = inr (a', slice) /\
    a' !! Z.to_nat niter = Some slice /\
    r_array !! Z.to_nat (niter - 1) = Some r_prev /\
    a_array !! Z.to_nat (niter - 1) = Some a_prev /\
    cube iterations n a' /\
    (forall h, h <> Z.to_nat niter -> a' !! h = a_array !! h) /\
    forall i k, i < n -> k < n ->
      (entry slice i k
       == damp_c * spec_availability_term r_prev n i k
          + (1 - damp_c) * entry a_prev i k)%Q.
Proof.
  intros Hr Ha Hn.
  destruct (cube_lookup _ _ _ (Z.to_nat (niter - 1)) Hr)
    as (r_prev & Hrp & _); [lia|].
  destruct (cube_lookup _ _ _ (Z.to_nat (niter - 1)) Ha)
    as (a_prev & Hap & _); [lia|].
  destruct (a_array_update_loops iterations n niter r_array a_array damp_c
              r_prev a_prev Hr Ha Hn Hrp Hap)
    as (a' & Hrun & Hc' & Hframe & HE).
  destruct (cube_lookup _ _ _ (Z.to_nat niter) Hc')
    as (slice & Hslice & _); [lia|].
  exists a', slice, r_prev, a_prev.
  split.
  { unfold a_array_update. rewrite Hrun. cbn [py_bind].
    rewrite py_idx_nonneg by lia. by rewrite (idx_Some _ _ _ Hslice). }
  repeat (split; [done|]).
  intros i k Hi Hk. specialize (HE i k Hi Hk).
  unfold entry3 in HE. by rewrite Hslice in HE.
Qed.

(** On well-shaped histories [a_array_update] returns, and keeps the
    shape. *)
Lemma a_array_update_ok (iterations n : nat) (niter : Z)
    (r_array a_array : tensor) (damp_c : Q) :
  cube iterations n r_array -> cube iterations n a_array ->
  (1 <= niter < Z.of_nat iterations)%Z ->
  exists a' slice,
    a_array_update n niter r_array damp_c a_array = inr (a', slice) /\
    a' !! Z.to_nat niter = Some slice /\ cube iterations n a'.
Proof.
  intros Hr Ha Hn.
  destruct (cube_lookup _ _ _ (Z.to_nat (niter - 1)) Hr)
    as (r_prev & Hrp & _); [lia|].
  destruct (cube_lookup _ _ _ (Z.to_nat (niter - 1)) Ha)
    as (a_prev & Hap & _); [lia|].
  destruct (a_array_update_loops iterations n niter r_array a_array damp_c
              r_prev a_prev Hr Ha Hn Hrp Hap) as (a' & Hrun & Hc' & _).
  destruct (cube_lookup _ _ _ (Z.to_nat niter) Hc')
    as (slice & Hslice & _); [lia|].
  exists a', slice. split; [|done].
  unfold a_array_update. rewrite Hrun. cbn [py_bind].
  rewrite py_idx_nonneg by lia. by rewrite (idx_Some _ _ _ Hslice).
Qed.

Lemma is_square_true (n : nat) (m : matrix) :
  is_square n m = true -> square n m.
Proof.
  unfold is_square. intros [Hlen Hrows]%andb_true_iff.
  apply Nat.eqb_eq in Hlen. split; [done|].
  intros row Hrow. rewrite forallb_forall in Hrows.
  apply Nat.eqb_eq, Hrows. by apply list_elem_of_In.
Qed.

Lemma is_cube_true (iterations n : nat) (t : tensor) :
  is_cube iterations n t = true -> cube iterations n t.
Proof.
  unfold is_cube. intros [Hlen Hsq]%andb_true_iff.
  apply Nat.eqb_eq in Hlen. split; [done|].
  intros m Hm. rewrite forallb_forall in Hsq.
  apply is_square_true, Hsq. by apply list_elem_of_In.
Qed.

Lemma a_array_update_spec_witness :
  cube 2 2 [[[0; -3]; [-3; 0]]; [[0; 0]; [0; 0]]]%Q /\
  cube 2 2 (np_zeros3 2 2 2) /\
  (1 <= 1 < Z.of_nat 2)%Z /\
  exists a' slice,
    a_array_update 2 1 [[[0; -3]; [-3; 0]]; [[0; 0]; [0; 0]]]%Q (1 # 2)
                   (np_zeros3 2 2 2) = inr (a', slice) /\
    a' !! 1 = Some slice.
Proof.
  assert (H1 : cube 2 2 [[[0; -3]; [-3; 0]]; [[0; 0]; [0; 0]]]%Q)
    by (apply is_cube_true; reflexivity).
  assert (H2 : cube 2 2 (np_zeros3 2 2 2))
    by (apply is_cube_true; reflexivity).
  assert (H3 : (1 <= 1 < Z.of_nat 2)%Z) by (simpl; lia).
  split; [exact H1|]. split; [exact H2|]. split; [exact H3|].
  destruct (a_array_update_spec 2 2 1 _ _ (1 # 2) H1 H2 H3)
    as (a' & slice & _ & _ & Hrun & Hslice & _).
  exists a', slice. split; [exact Hrun|exact Hslice].
Defined.

(** ** The responsibility update *)

Lemma mat_zip_spec (f : Q -> Q -> Q) (n : nat) (a b : matrix) :
  square n a -> square n b ->
  exists c, mat_zip f a b = inr c /\ square n c /\
    forall i k, i < n -> k < n -> entry c i k = f (entry a i k) (entry b i k).
Proof.
  intros Ha Hb. pose proof Ha as [Hla Hra]. pose proof Hb as [Hlb Hrb].
  unfold mat_zip.
  assert (Hs : same_shape a b = true).
  { unfold same_shape. apply andb_true_iff. split.
    - apply bool_decide_eq_true. lia.
    - apply forallb_forall. intros [ra rb] Hin.
      apply list_elem_of_In in Hin. apply bool_decide_eq_true. simpl.
      rewrite (Hra ra), (Hrb rb); [done| |].
      + by eapply elem_of_zip_r.
      + by eapply elem_of_zip_l. }
  rewrite Hs. eexists. split; [reflexivity|]. split.
  - split; [rewrite length_zip_with; lia|].
    intros row [i Hi]%list_elem_of_lookup.
    apply lookup_zip_with_Some in Hi as (ra & rb & -> & Hia & Hib).
    rewrite length_zip_with, (Hra ra), (Hrb rb);
      [lia| |]; eapply list_elem_of_lookup_2; eauto.
  - intros i k Hi Hk.
    destruct (square_lookup _ _ i k Ha Hi Hk) as (ra & Hia & _ & Hka).
    destruct (square_lookup _ _ i k Hb Hi Hk) as (rb & Hib & _ & Hkb).
    unfold entry at 1. rewrite lookup_zip_with, Hia, Hib. simpl.
    by rewrite lookup_zip_with, Hka, Hkb.
Qed.

Lemma mat_scale_spec (c : Q) (n : nat) (a : matrix) :
  square n a ->
  square n (mat_scale c a) /\
  forall i k, i < n -> k < n ->
    entry (mat_scale c a) i k = (c * entry a i k)%Q.
Proof.
  intros Ha. pose proof Ha as [Hla Hra]. unfold mat_scale. split.
  - split; [by rewrite length_fmap|].
    intros row (ra & -> & Hin)%list_elem_of_fmap.
    rewrite length_fmap. auto.
  - intros i k Hi Hk.
    destruct (square_lookup _ _ i k Ha Hi Hk) as (ra & Hia & _ & Hka).
    unfold entry at 1. rewrite list_lookup_fmap, Hia. simpl.
    by rewrite list_lookup_fmap, Hka.
Qed.

Lemma delete_nonempty (row : vec) (n k : nat) :
  length row = n -> 2 <= n -> k < n -> delete k row <> [].
Proof.
  intros Hlen Hn Hk Hnil.
  assert (H : length (delete k row) = length row - 1).
  { apply length_delete, lookup_lt_is_Some. lia. }
  rewrite Hnil in H. simpl in H. lia.
Qed.

(** The maximum of a row without its column [k] is attained in a column
    other than [k] and bounds every entry outside column [k]. *)
Lemma row_max_delete (row : vec) (n k : nat) :
  length row = n -> 2 <= n -> k < n ->
  (exists k', k' <> k /\ row !! k' = Some (row_max (delete k row))) /\
  forall k' x, k' <> k -> row !! k' = Some x ->
    (x <= row_max (delete k row))%Q.
Proof.
  intros Hlen Hn Hk. split.
  - pose proof (row_max_elem _ (delete_nonempty row n k Hlen Hn Hk)) as Hin.
    apply list_elem_of_lookup in Hin as [j Hj].
    rewrite list_lookup_delete in Hj.
    eexists. split; [|exact Hj]. case_decide; lia.
  - intros k' x Hne Hx. apply row_max_ge.
    destruct (decide (k' < k)) as [Hlt|Hge].
    + apply (list_elem_of_lookup_2 _ k').
      by rewrite list_lookup_delete_lt.
    + apply (list_elem_of_lookup_2 _ (k' - 1)).
      rewrite list_lookup_delete_ge by lia.
      by replace (S (k' - 1)) with k' by lia.
Qed.

Lemma set_col_spec (n : nat) (m : matrix) (i : nat) (col : vec) :
  square n m -> length col = n -> i < n ->
  exists m', set_col m i col = inr m' /\ square n m' /\
    (forall r x, col !! r = Some x -> entry m' r i = x) /\
    forall r k, k <> i -> entry m' r k = entry m r k.
Proof.
  intros [Hlen Hrows] Hcol Hi. unfold set_col.
  rewrite decide_True by lia.
  rewrite (py_mapM_fmap _ (fun p : vec * Q => <[i := p.2]> p.1)); cycle 1.
  { intros [row x] Hin. simpl. apply set_idx_lt.
    rewrite (Hrows row); [done|]. by eapply elem_of_zip_l. }
  eexists. split; [reflexivity|].
  assert (Hlk : forall r,
    ((fun p : vec * Q => <[i := p.2]> p.1) <$> zip m col) !! r
    = (row ← m !! r; x ← col !! r; Some (<[i := x]> row))).
  { intros r. rewrite list_lookup_fmap, lookup_zip_with.
    destruct (m !! r); [|done]. simpl. by destruct (col !! r). }
  split; [|split].
  - split; [rewrite length_fmap, length_zip_with; lia|].
    intros row [r Hr]%list_elem_of_lookup. rewrite Hlk in Hr.
    destruct (m !! r) as [row0|] eqn:Hm; [|done]. simpl in Hr.
    destruct (col !! r); [|done]. simpl in Hr. injection Hr as <-.
    rewrite length_insert. apply Hrows. eapply list_elem_of_lookup_2; eauto.
  - intros r x Hx. unfold entry. rewrite Hlk, Hx.
    destruct (lookup_lt_is_Some_2 m r) as [row Hrow].
    { apply lookup_lt_Some in Hx. lia. }
    rewrite Hrow. simpl. rewrite list_lookup_insert_eq; [done|].
    rewrite (Hrows row); [done|]. eapply list_elem_of_lookup_2; eauto.
  - intros r k Hne. unfold entry. rewrite Hlk.
    destruct (m !! r) as [row|] eqn:Hm; [|done]. simpl.
    destruct (lookup_lt_is_Some_2 col r) as [x Hx].
    { apply lookup_lt_Some in Hm. lia. }
    rewrite Hx. simpl. by rewrite list_lookup_insert_ne.
Qed.

Lemma square_np_zeros2 (n : nat) : square n (np_zeros2 n n).
Proof.
  unfold np_zeros2, np_zeros. split; [by rewrite length_replicate|].
  intros row [-> _]%elem_of_replicate. by rewrite length_replicate.
Qed.

Lemma shape1_square (n : nat) (m : matrix) : square n m -> 0 < n -> shape1 m = n.
Proof.
  intros [Hlen Hrows] Hn. destruct m as [|row m]; simpl in *; [lia|].
  apply Hrows. left.
Qed.

(** The loop of [r_array_update]: column [i] of [row_max] receives, for
    every row, the maximum of that row of the sum without its entry [i]. *)
Lemma row_max_loop (n : nat) (s_a : matrix) :
  square n s_a -> 2 <= n ->
  exists rm,
    for_each (seq 0 n) (fun i row_max =>
      col <- py_mapM np_max (drop_col s_a i) ;; set_col row_max i col)
      (np_zeros2 n n) = inr rm /\
    square n rm /\
    forall r i row, i < n -> s_a !! r = Some row ->
      entry rm r i = row_max (delete i row).
Proof.
  intros Hsq Hn. pose proof Hsq as [Hlen Hrows].
  destruct (for_each_inv
    (fun done rm => square n rm /\
       forall r i row, i ∈ done -> s_a !! r = Some row ->
         entry rm r i = row_max (delete i row))
    (fun i row_max =>
      col <- py_mapM np_max (drop_col s_a i) ;; set_col row_max i col)
    (seq 0 n) (np_zeros2 n n)) as (rm & Hrun & Hsq' & Hrm).
  - split; [apply square_np_zeros2|].
    intros r i row Hin. by apply elem_of_nil in Hin.
  - intros done i rest rm Hsplit [Hsq0 Hdone].
    apply seq_split_inv in Hsplit as [Hi Hfresh].
    unfold drop_col.
    rewrite (py_mapM_fmap _ row_max); cycle 1.
    { intros x (row & -> & Hin)%list_elem_of_fmap.
      apply np_max_row_max. apply (delete_nonempty row n i); auto. }
    cbn [py_bind].
    destruct (set_col_spec n rm i (row_max <$> (delete i <$> s_a)) Hsq0)
      as (rm' & Hset & Hsq1 & Hcol & Hoth); [by rewrite !length_fmap|done|].
    exists rm'. split; [done|]. split; [done|].
    intros r i' row [Hin| ->%list_elem_of_singleton]%elem_of_app Hrow.
    + rewrite Hoth by (intros ->; done). by apply Hdone.
    + apply Hcol. by rewrite !list_lookup_fmap, Hrow.
  - exists rm. split; [done|]. split; [done|].
    intros r i row Hi Hrow. apply Hrm; [|done]. apply elem_of_seq. lia.
Qed.

Lemma same_shape_square (n : nat) (a b : matrix) :
  square n a -> square n b -> same_shape a b = true.
Proof.
  intros Ha Hb. destruct (mat_zip_spec Qplus n a b Ha Hb) as (c & Hc & _).
  unfold mat_zip in Hc. by destruct (same_shape a b).
Qed.

(** The value of one call of [r_array_update]: slice [niter] is replaced by
    a matrix whose entry [(i, k)] is the damped difference between S[i,k]
    and the maximum of row [i] of [A + S] without its column [k]. *)
Lemma r_array_update_eq (iterations n : nat) (niter : Z)
    (a_array r_array : tensor) (s_matrix : matrix) (damp_c : Q)
    (a_t r_prev : matrix) :
  cube iterations n a_array -> cube iterations n r_array ->
  square n s_matrix -> 2 <= n ->
  (1 <= niter < Z.of_nat iterations)%Z ->
  a_array !! Z.to_nat niter = Some a_t ->
  r_array !! Z.to_nat (niter - 1) = Some r_prev ->
  exists new s_a,
    r_array_update niter a_array s_matrix damp_c r_array
    = inr (<[Z.to_nat niter := new]> r_array, new) /\
    square n new /\ square n s_a /\
    (forall i k, i < n -> k < n ->
       entry s_a i k = (entry a_t i k + entry s_matrix i k)%Q) /\
    forall i k row, i < n -> k < n -> s_a !! i = Some row ->
      entry new i k
      = (damp_c * (entry s_matrix i k - row_max (delete k row))
         + (1 - damp_c) * entry r_prev i k)%Q.
Proof.
  intros Ha Hr Hs Hn Hniter Haq Hrp.
  set (q := Z.to_nat niter) in *. set (p := Z.to_nat (niter - 1)) in *.
  assert (Hsq_a : square n a_t).
  { destruct Ha as [_ Ha]. apply Ha. eapply list_elem_of_lookup_2; eauto. }
  assert (Hsq_rp : square n r_prev).
  { destruct Hr as [_ Hr]. apply Hr. eapply list_elem_of_lookup_2; eauto. }
  destruct (cube_lookup _ _ _ q Hr) as (old & Hrq & Hsq_old); [subst q; lia|].
  destruct (mat_zip_spec Qplus n a_t s_matrix Hsq_a Hs)
    as (s_a & Hsa & Hsq_sa & Esa).
  destruct (row_max_loop n s_a Hsq_sa Hn) as (rm & Hloop & Hsq_rm & Erm).
  destruct (mat_zip_spec Qminus n s_matrix rm Hs Hsq_rm)
    as (ut & Hut & Hsq_ut & Eut).
  destruct (mat_scale_spec damp_c n ut Hsq_ut) as [Hsq_l El].
  destruct (mat_scale_spec (1 - damp_c) n r_prev Hsq_rp) as [Hsq_r Er].
  destruct (mat_zip_spec Qplus n _ _ Hsq_l Hsq_r) as (new & Hnew & Hsq_new & Enew).
  assert (Hqlen : q < length r_array) by (destruct Hr; subst q; lia).
  exists new, s_a. split.
  { unfold r_array_update.
    rewrite py_idx_nonneg by lia. fold q. rewrite (idx_Some _ _ _ Haq).
    cbn [py_bind]. rewrite Hsa. cbn [py_bind].
    rewrite (shape1_square n s_a Hsq_sa) by lia.
    rewrite Hloop. cbn [py_bind]. rewrite Hut. cbn [py_bind].
    rewrite py_idx_nonneg by lia. fold p. rewrite (idx_Some _ _ _ Hrp).
    cbn [py_bind]. rewrite Hnew. cbn [py_bind].
    rewrite py_idx_nonneg by lia. fold q. rewrite (idx_Some _ _ _ Hrq).
    cbn [py_bind]. rewrite (same_shape_square n new old) by done.
    unfold py_set_idx. rewrite py_idx_nonneg, py_pos_nonneg by lia. fold q.
    rewrite (idx_Some _ _ _ Hrq). cbn [py_bind].
    rewrite py_idx_nonneg by lia. fold q.
    by rewrite (idx_Some _ q new) by (by apply list_lookup_insert_eq). }
  split; [done|]. split; [done|]. split; [exact Esa|].
  intros i k row Hi Hk Hrow.
  rewrite (Enew i k Hi Hk), (El i k Hi Hk), (Er i k Hi Hk), (Eut i k Hi Hk).
  by rewrite (Erm i k row Hk Hrow).
Qed.

(** C4. One call of [r_array_update] for iteration [niter >= 1] stores, at
    every [(i, k)], the damped value
    [damp_c * (S[i,k] - mx) + (1 - damp_c) * R_prev[i,k]], where [mx] is the
    maximum of S[i,k'] + A[i,k'] over the columns k' other than k, with A the
    availabilities of iteration [niter] itself.  There must be a column
    other than k, hence n >= 2.  It holds for every damping factor, in
    particular for those in (0,1]. *)
Theorem r_array_update_spec (iterations n : nat) (niter : Z)
    (a_array r_array : tensor) (s_matrix : matrix) (damp_c : Q) :
  cube iterations n a_array -> cube iterations n r_array ->
  square n s_matrix -> 2 <= n ->
  (1 <= niter < Z.of_nat iterations)%Z ->
  exists r' slice a_t r_prev,
    r_array_update niter a_array s_matrix damp_c r_array = inr (r', slice) /\
    r' !! Z.to_nat niter = Some slice /\
    a_array !! Z.to_nat niter = Some a_t /\
    r_array !! Z.to_nat (niter - 1) = Some r_prev /\
    cube iterations n r' /\
    (forall h, h <> Z.to_nat niter -> r' !! h = r_array !! h) /\
    forall i k, i < n -> k < n ->
      exists mx,
        (exists k', k' <> k /\ k' < n /\
           (mx == entry s_matrix i k' + entry a_t i k')%Q) /\
        (forall k', k' <> k -> k' < n ->
           (entry s_matrix i k' + entry a_t i k' <= mx)%Q) /\
        (entry slice i k
         == damp_c * (entry s_matrix i k - mx)
            + (1 - damp_c) * entry r_prev i k)%Q.
Proof.
  intros Ha Hr Hs Hn Hniter.
  destruct (cube_lookup _ _ _ (Z.to_nat niter) Ha) as (a_t & Haq & _); [lia|].
  destruct (cube_lookup _ _ _ (Z.to_nat (niter - 1)) Hr)
    as (r_prev & Hrp & _); [lia|].
  destruct (r_array_update_eq iterations n niter a_array r_array s_matrix
              damp_c a_t r_prev Ha Hr Hs Hn Hniter Haq Hrp)
    as (new & s_a & Hrun & Hsq_new & Hsq_sa & Esa & Enew).
  assert (Hqlen : Z.to_nat niter < length r_array) by (destruct Hr; lia).
  exists (<[Z.to_nat niter := new]> r_array), new, a_t, r_prev.
  split; [done|]. split; [by apply list_lookup_insert_eq|].
  split; [done|]. split; [done|].
  split; [by apply cube_insert|].
  split; [intros h Hh; by rewrite list_lookup_insert_ne|].
  intros i k Hi Hk.
  destruct (square_lookup _ _ i k Hsq_sa Hi Hk) as (row & Hrow & Hlen & _).
  destruct (row_max_delete row n k Hlen Hn Hk) as [(k' & Hne & Hk') Hub].
  exists (row_max (delete k row)).
  assert (Hentry : forall j x, row !! j = Some x ->
            j < n /\ x = (entry a_t i j + entry s_matrix i j)%Q).
  { intros j x Hj. assert (Hjn : j < n).
    { apply lookup_lt_Some in Hj. lia. }
    split; [done|]. rewrite <- (Esa i j Hi Hjn).
    unfold entry. rewrite Hrow. simpl. by rewrite Hj. }
  split; [|split].
  - exists k'. destruct (Hentry k' _ Hk') as [Hk'n Heq].
    split; [done|]. split; [done|]. rewrite Heq. ring.
  - intros j Hne' Hj.
    destruct (lookup_lt_is_Some_2 row j) as [x Hx]; [lia|].
    destruct (Hentry j x Hx) as [_ Heq].
    apply Qle_trans with x; [rewrite Heq; lra|]. by apply (Hub j).
  - rewrite (Enew i k row Hi Hk Hrow). reflexivity.
Qed.

Lemma r_array_update_spec_witness :
  cube 2 2 (np_zeros3 2 2 2) /\
  cube 2 2 [[[0; 0]; [-3; 0]]; [[0; 0]; [0; 0]]]%Q /\
  square 2 [[-1; -1]; [-4; -1]]%Q /\ 2 <= 2 /\
  (1 <= 1 < Z.of_nat 2)%Z /\
  exists r' slice,
    r_array_update 1 (np_zeros3 2 2 2) [[-1; -1]; [-4; -1]]%Q (1 # 2)
                   [[[0; 0]; [-3; 0]]; [[0; 0]; [0; 0]]]%Q = inr (r', slice) /\
    r' !! 1 = Some slice.
Proof.
  assert (H1 : cube 2 2 (np_zeros3 2 2 2))
    by (apply is_cube_true; reflexivity).
  assert (H2 : cube 2 2 [[[0; 0]; [-3; 0]]; [[0; 0]; [0; 0]]]%Q)
    by (apply is_cube_true; reflexivity).
  assert (H3 : square 2 [[-1; -1]; [-4; -1]]%Q)
    by (apply is_square_true; reflexivity).
  assert (H4 : 2 <= 2) by lia.
  assert (H5 : (1 <= 1 < Z.of_nat 2)%Z) by (simpl; lia).
  repeat (split; [assumption|]).
  destruct (r_array_update_spec 2 2 1 _ _ _ (1 # 2) H1 H2 H3 H4 H5)
    as (r' & slice & _ & _ & Hrun & Hslice & _).
  exists r', slice. split; [exact Hrun|exact Hslice].
Defined.

(** ** The similarity matrix *)

Lemma Qsum_nonneg (l : list Q) : (forall x, x ∈ l -> (0 <= x)%Q) -> (0 <= Qsum l)%Q.
Proof.
  induction l as [|x l IH]; intros Hl; simpl; [lra|].
  assert (0 <= x)%Q by (apply Hl; left).
  assert (0 <= Qsum l)%Q by (apply IH; intros y Hy; apply Hl; by right).
  lra.
Qed.

Lemma Qsquare_nonneg (x : Q) : (0 <= x * x)%Q.
Proof.
  destruct x as [a d]. unfold Qle, Qmult. simpl.
  rewrite Z.mul_1_r. apply Z.square_nonneg.
Qed.

Lemma sq_dist_nonneg (p q : vec) : (0 <= sq_dist p q)%Q.
Proof.
  unfold sq_dist. apply Qsum_nonneg.
  intros x (a & b & -> & _ & _)%elem_of_zip_with. apply Qsquare_nonneg.
Qed.

Lemma sq_dist_self (p : vec) : (sq_dist p p == 0)%Q.
Proof.
  unfold sq_dist. induction p as [|x p IH]; simpl; [reflexivity|].
  rewrite IH. ring.
Qed.

Lemma neg_sq_dists_lookup (mydata : matrix) (i k : nat) (pi pk : vec) :
  mydata !! i = Some pi -> mydata !! k = Some pk ->
  exists row, neg_sq_dists mydata !! i = Some row /\
    length row = length mydata /\ row !! k = Some (- sq_dist pi pk)%Q.
Proof.
  intros Hi Hk. unfold neg_sq_dists. eexists.
  rewrite list_lookup_fmap, Hi. split; [reflexivity|].
  split; [by rewrite length_fmap|]. by rewrite list_lookup_fmap, Hk.
Qed.

Lemma elem_of_neg_sq_dists (mydata : matrix) (x : Q) :
  x ∈ concat (neg_sq_dists mydata) <->
  exists i k pi pk, mydata !! i = Some pi /\ mydata !! k = Some pk /\
                    x = (- sq_dist pi pk)%Q.
Proof.
  rewrite list_elem_of_In, in_concat. split.
  - intros (row & Hrow & Hx). apply list_elem_of_In in Hrow, Hx.
    unfold neg_sq_dists in Hrow.
    apply list_elem_of_fmap in Hrow as (pi & -> & [i Hi]%list_elem_of_lookup).
    apply list_elem_of_fmap in Hx as (pk & -> & [k Hk]%list_elem_of_lookup).
    by exists i, k, pi, pk.
  - intros (i & k & pi & pk & Hi & Hk & ->).
    destruct (neg_sq_dists_lookup mydata i k pi pk Hi Hk) as (row & Hrow & _ & Hx).
    exists row. split; apply list_elem_of_In; eapply list_elem_of_lookup_2; eauto.
Qed.

Lemma length_insert_sorted (x : Q) (l : list Q) :
  length (insert_sorted x l) = S (length l).
Proof.
  induction l as [|y l IH]; simpl; [done|].
  destruct (Qle_bool x y); simpl; by rewrite ?IH.
Qed.

Lemma length_np_sort (l : list Q) : length (np_sort l) = length l.
Proof.
  unfold np_sort. induction l as [|x l IH]; simpl; [done|].
  by rewrite length_insert_sorted, IH.
Qed.

Lemma length_concat_uniform (l : matrix) (n : nat) :
  (forall row, row ∈ l -> length row = n) -> length (concat l) = length l * n.
Proof.
  induction l as [|row l IH]; intros Hl; simpl; [done|].
  rewrite length_app, (Hl row) by left.
  rewrite IH; [done|]. intros r Hr. apply Hl. by right.
Qed.

(** C2 (amended). For n >= 2 points the matrix returned by
    [calc_similarity_matrix] has the negated squared Euclidean distance at
    every off-diagonal position and one preference value [p] at every
    diagonal position.  In mode 1, [p] is the minimum of the off-diagonal
    values.  In the other mode, [p] is the median of all n * n entries of the
    matrix of negated squared distances, the n zeros of its diagonal
    included. *)
Theorem calc_similarity_matrix_spec (mydata : matrix) (num_cluster_pref : pynum) :
  2 <= length mydata ->
  exists s p,
    calc_similarity_matrix mydata num_cluster_pref = inr s /\
    (forall i k pi pk, i <> k ->
       mydata !! i = Some pi -> mydata !! k = Some pk ->
       s !! i ≫= (.!! k) = Some (- sq_dist pi pk)%Q) /\
    (forall i, i < length mydata -> s !! i ≫= (.!! i) = Some p) /\
    (num_eqb num_cluster_pref 1 = true ->
       (forall i k pi pk, i <> k ->
          mydata !! i = Some pi -> mydata !! k = Some pk ->
          (p <= - sq_dist pi pk)%Q) /\
       (exists i k pi pk, i <> k /\
          mydata !! i = Some pi /\ mydata !! k = Some pk /\
          (p == - sq_dist pi pk)%Q)) /\
    (num_eqb num_cluster_pref 1 = false ->
       np_median (concat (neg_sq_dists mydata)) = inr p /\
       length (concat (neg_sq_dists mydata)) = length mydata * length mydata /\
       forall i pi, mydata !! i = Some pi ->
         exists d, neg_sq_dists mydata !! i ≫= (.!! i) = Some d /\ (d == 0)%Q).
Proof.
  intros Hn. set (neg := neg_sq_dists mydata).
  destruct (lookup_lt_is_Some_2 mydata 0) as [p0 Hp0]; [lia|].
  destruct (lookup_lt_is_Some_2 mydata 1) as [p1 Hp1]; [lia|].
  assert (Hne : concat neg <> []).
  { intros Hnil.
    assert (Hin : (- sq_dist p0 p0)%Q ∈ concat neg).
    { apply elem_of_neg_sq_dists. by exists 0, 0, p0, p0. }
    rewrite Hnil in Hin. by apply elem_of_nil in Hin. }
  assert (Hpref : exists p,
    (if num_eqb num_cluster_pref 1 then np_min (concat neg)
     else np_median (concat neg)) = inr p).
  { destruct (num_eqb num_cluster_pref 1).
    - destruct (np_min_spec _ Hne) as (mn & -> & _). by exists mn.
    - unfold np_median. rewrite length_np_sort.
      rewrite decide_False by (by destruct (concat neg)).
      destruct (Nat.even _); eauto. }
  destruct Hpref as [p Hp]. exists (fill_diagonal neg p), p.
  split; [unfold calc_similarity_matrix; fold neg; by rewrite Hp|].
  assert (Hrow : forall i k pi pk,
    mydata !! i = Some pi -> mydata !! k = Some pk ->
    exists row, fill_diagonal neg p !! i = Some (<[i := p]> row) /\
      length row = length mydata /\ row !! k = Some (- sq_dist pi pk)%Q).
  { intros i k pi pk Hi Hk.
    destruct (neg_sq_dists_lookup mydata i k pi pk Hi Hk) as (row & Hr & Hl & Hx).
    exists row. unfold fill_diagonal. fold neg in Hr.
    by rewrite list_lookup_imap, Hr. }
  split; [|split; [|split]].
  - intros i k pi pk Hik Hi Hk.
    destruct (Hrow i k pi pk Hi Hk) as (row & -> & _ & Hx). simpl.
    by rewrite list_lookup_insert_ne.
  - intros i Hi.
    destruct (lookup_lt_is_Some_2 mydata i) as [pi Hpi]; [lia|].
    destruct (Hrow i i pi pi Hpi Hpi) as (row & -> & Hl & _). simpl.
    apply list_lookup_insert_eq. lia.
  - intros Hmode. rewrite Hmode in Hp.
    destruct (np_min_spec _ Hne) as (mn & Hmn & Hin & Hlb).
    rewrite Hmn in Hp. injection Hp as ->.
    assert (Hle : forall i k pi pk,
      mydata !! i = Some pi -> mydata !! k = Some pk ->
      (p <= - sq_dist pi pk)%Q).
    { intros i k pi pk Hi Hk. apply Hlb, elem_of_neg_sq_dists.
      by exists i, k, pi, pk. }
    split; [intros i k pi pk _; apply Hle|].
    apply elem_of_neg_sq_dists in Hin as (i & k & pi & pk & Hi & Hk & Hval).
    destruct (decide (i = k)) as [->|Hik].
    + exists 0, 1, p0, p1. repeat (split; [done|]).
      assert (pi = pk) by congruence. subst pk.
      pose proof (sq_dist_self pi) as Hz.
      pose proof (sq_dist_nonneg p0 p1) as Hnn.
      pose proof (Hle 0 1 p0 p1 Hp0 Hp1) as Hle01.
      rewrite Hval in Hle01 |- *. lra.
    + exists i, k, pi, pk. repeat (split; [done|]). by rewrite Hval.
  - intros Hmode. rewrite Hmode in Hp. split; [done|]. split.
    + unfold neg, neg_sq_dists.
      rewrite (length_concat_uniform _ (length mydata)).
      * by rewrite length_fmap.
      * intros row (pi & -> & _)%list_elem_of_fmap. by rewrite length_fmap.
    + intros i pi Hi.
      destruct (neg_sq_dists_lookup mydata i i pi pi Hi Hi) as (row & Hr & _ & Hx).
      fold neg in Hr. eexists. rewrite Hr. simpl. split; [exact Hx|].
      rewrite sq_dist_self. reflexivity.
Qed.

Lemma calc_similarity_matrix_spec_witness :
  2 <= length [[0]; [1]]%Q /\
  exists s p,
    calc_similarity_matrix [[0]; [1]]%Q (PyInt 1) = inr s /\
    (forall i, i < length [[0]; [1]]%Q -> s !! i ≫= (.!! i) = Some p).
Proof.
  assert (H : 2 <= length [[0]; [1]]%Q) by (simpl; lia).
  split; [exact H|].
  destruct (calc_similarity_matrix_spec [[0]; [1]]%Q (PyInt 1) H)
    as (s & p & Hrun & _ & Hdiag & _).
  exists s, p. split; [exact Hrun|exact Hdiag].
Defined.

(** Two points at distance 1, mode 2: the off-diagonal values are -1 and
    -1, with median -1, but the diagonal receives -1/2, the median of
    0, -1, -1, 0. *)
Lemma calc_similarity_matrix_median_counterexample :
  exists s d med,
    calc_similarity_matrix [[0]; [1]]%Q (PyInt 2) = inr s /\
    s !! 0 ≫= (.!! 0) = Some d /\
    np_median (off_diagonal s) = inr med /\
    (d == - (1 # 2))%Q /\ (med == - 1)%Q /\ ~ (d == med)%Q.
Proof.
  exists [[-1 # 2; -1]; [-1; -1 # 2]]%Q, (-1 # 2)%Q, (-2 # 2)%Q.
  repeat split; try reflexivity. intros H. discriminate H.
Qed.

(** ** The cluster assignment *)

Lemma argmax_from_spec (l pre : vec) (best_i : nat) (best : Q) :
  pre !! best_i = Some best ->
  (forall j x, pre !! j = Some x -> (x <= best)%Q) ->
  (forall j x, j < best_i -> pre !! j = Some x -> (x < best)%Q) ->
  exists v,
    (pre ++ l) !! argmax_from best_i best (length pre) l = Some v /\
    (forall j x, (pre ++ l) !! j = Some x -> (x <= v)%Q) /\
    (forall j x, j < argmax_from best_i best (length pre) l ->
       (pre ++ l) !! j = Some x -> (x < v)%Q).
Proof.
  revert pre best_i best.
  induction l as [|y l IH]; intros pre best_i best Hbest Hub Hfirst; simpl.
  - exists best. rewrite app_nil_r. auto.
  - replace (pre ++ y :: l) with ((pre ++ [y]) ++ l)
      by (by rewrite <- app_assoc).
    replace (S (length pre)) with (length (pre ++ [y]))
      by (rewrite length_app; simpl; lia).
    destruct (Qlt_bool best y) eqn:Hlt.
    + apply Qlt_bool_spec in Hlt.
      apply IH.
      * by rewrite lookup_app_r, Nat.sub_diag by lia.
      * intros j x [Hx|[Hj Hx]]%lookup_app_Some.
        -- specialize (Hub j x Hx). lra.
        -- destruct (j - length pre); simpl in Hx; [|done].
           injection Hx as ->. lra.
      * intros j x Hj Hx. rewrite lookup_app_l in Hx by lia.
        specialize (Hub j x Hx). lra.
    + apply Qlt_bool_false in Hlt. apply IH.
      * rewrite lookup_app_l; [done|]. by apply lookup_lt_Some in Hbest.
      * intros j x [Hx|[Hj Hx]]%lookup_app_Some.
        -- by apply (Hub j).
        -- destruct (j - length pre); simpl in Hx; [|done].
           by injection Hx as ->.
      * intros j x Hj Hx. apply (Hfirst j x Hj).
        rewrite lookup_app_l in Hx; [done|].
        apply lookup_lt_Some in Hbest. lia.
Qed.

(** [np_argmax] returns a position of the maximum, and every earlier
    position holds a strictly smaller value. *)
Lemma np_argmax_spec (row : vec) :
  row <> [] ->
  exists k v,
    np_argmax row = inr k /\ row !! k = Some v /\
    (forall j x, row !! j = Some x -> (x <= v)%Q) /\
    (forall j x, j < k -> row !! j = Some x -> (x < v)%Q).
Proof.
  destruct row as [|x row]; [done|]. intros _.
  destruct (argmax_from_spec row [x] 0 x) as (v & Hv & Hub & Hfirst).
  - done.
  - intros [|j] y Hy; simpl in Hy; [|done]. injection Hy as ->. lra.
  - intros j y Hj. lia.
  - exists (argmax_from 0 x 1 row), v. split; [done|]. split; [exact Hv|].
    split; [exact Hub|exact Hfirst].
Qed.

Lemma loop_body_inv (step : nat -> tensor * tensor -> py (tensor * tensor))
    (dim n iters w niter : nat) (st : loop_state)
    (o : loop_state + list string * afprop_return) :
  loop_body step dim n iters w niter st = inr o ->
  exists a r clusters stab,
    step niter (ls_a_array st, ls_r_array st) = inr (a, r) /\
    iteration_clusters r a niter = inr clusters /\
    (if bool_decide (clusters = ls_clusters_prev st)
     then set_idx (ls_iter_stability st) niter 1%Q
     else inr (ls_iter_stability st)) = inr stab /\
    o = if window_stable stab w niter
        then inr (ls_stdout st, make_return dim n niter clusters)
        else inl (LoopState a r clusters stab
                    (if niter =? iters - 1
                     then ls_stdout st ++ [stability_msg] else ls_stdout st)).
Proof.
  unfold loop_body. intros H.
  apply py_bind_inv in H as ([a r] & Hstep & H). cbn [fst snd] in H.
  apply py_bind_inv in H as (clusters & Hcl & H).
  apply py_bind_inv in H as (stab & Hstab & H).
  exists a, r, clusters, stab. repeat (split; [done|]).
  unfold window_stable, make_return.
  destruct (_ && _); [|by injection H as <-].
  destruct (dim =? 2); by injection H as <-.
Qed.

Lemma np_argmax_total (row : vec) :
  row <> [] -> np_argmax row = inr (argmax_total row).
Proof. by destruct row. Qed.

(** C10. The cluster assignment of an iteration gives every point [i] a
    column [k] that maximises R[i,k] + A[i,k] over the columns of row [i];
    every column before [k] has a strictly smaller score, so among tied
    maxima the lowest index is taken.  This assignment is the one the loop
    body works with: it becomes [clusters_prev] of the next iteration, or
    the labels of the returned tuple. *)
Theorem iteration_clusters_argmax (iterations n niter : nat)
    (r_array a_array : tensor) :
  cube iterations n r_array -> cube iterations n a_array ->
  0 < n -> niter < iterations ->
  exists clusters,
    iteration_clusters r_array a_array niter = inr clusters /\
    length clusters = n /\
    (forall i, i < n ->
       exists k, clusters !! i = Some k /\ k < n /\
         (forall k', k' < n ->
            (entry3 r_array niter i k' + entry3 a_array niter i k'
             <= entry3 r_array niter i k + entry3 a_array niter i k)%Q) /\
         (forall k', k' < k ->
            (entry3 r_array niter i k' + entry3 a_array niter i k'
             < entry3 r_array niter i k + entry3 a_array niter i k)%Q)) /\
    forall step dim iters w st o,
      step niter (ls_a_array st, ls_r_array st) = inr (a_array, r_array) ->
      loop_body step dim n iters w niter st = inr o ->
      match o with
      | inl st' => ls_clusters_prev st' = clusters
      | inr (_, ret) => ret_clusters ret = Some clusters
      end.
Proof.
  intros Hr Ha Hn Hniter.
  destruct (cube_lookup _ _ _ niter Hr) as (r_t & Hrt & Hsq_r); [done|].
  destruct (cube_lookup _ _ _ niter Ha) as (a_t & Hat & Hsq_a); [done|].
  destruct (mat_zip_spec Qplus n r_t a_t Hsq_r Hsq_a) as (sum & Hsum & Hsq & Es).
  pose proof Hsq as [Hlen Hrows].
  assert (Hrun : iteration_clusters r_array a_array niter
                 = inr (argmax_total <$> sum)).
  { unfold iteration_clusters.
    rewrite (idx_Some _ _ _ Hrt), (idx_Some _ _ _ Hat). cbn [py_bind].
    rewrite Hsum. cbn [py_bind]. unfold np_argmax_axis1.
    destruct sum as [|row0 sum]; [simpl in Hlen; lia|].
    apply py_mapM_fmap. intros row Hrow. apply np_argmax_total.
    intros ->. specialize (Hrows [] Hrow). simpl in Hrows. lia. }
  exists (argmax_total <$> sum). split; [done|].
  split; [by rewrite length_fmap|]. split.
  - intros i Hi.
    destruct (lookup_lt_is_Some_2 sum i) as [row Hrow]; [lia|].
    assert (Hrl : length row = n).
    { apply Hrows. eapply list_elem_of_lookup_2; eauto. }
    destruct (np_argmax_spec row) as (k & v & Hk & Hv & Hub & Hfirst).
    { intros ->. simpl in Hrl. lia. }
    rewrite np_argmax_total in Hk by (intros ->; simpl in Hrl; lia).
    injection Hk as Hk.
    assert (Hkn : k < n) by (apply lookup_lt_Some in Hv; lia).
    assert (Hscore : forall j, j < n ->
      row !! j = Some (entry3 r_array niter i j + entry3 a_array niter i j)%Q).
    { intros j Hj. unfold entry3. rewrite Hrt, Hat. simpl.
      rewrite <- (Es i j Hi Hj).
      destruct (lookup_lt_is_Some_2 row j) as [x Hx]; [lia|].
      unfold entry. rewrite Hrow. simpl. by rewrite Hx. }
    assert (Hvk : v = (entry3 r_array niter i k + entry3 a_array niter i k)%Q).
    { pose proof (Hscore k Hkn) as Hsk. congruence. }
    exists k. split; [rewrite list_lookup_fmap, Hrow; simpl; by rewrite Hk|].
    split; [done|]. rewrite <- Hvk. split.
    + intros k' Hk'. apply (Hub k'). by apply Hscore.
    + intros k' Hk'. apply (Hfirst k'); [done|]. apply Hscore. lia.
  - intros step dim iters w st o Hstep Hbody.
    apply loop_body_inv in Hbody
      as (a & r & clusters & stab & Hstep' & Hcl & _ & ->).
    rewrite Hstep in Hstep'. injection Hstep' as <- <-.
    rewrite Hrun in Hcl. injection Hcl as <-.
    destruct (window_stable stab w niter); [|done].
    unfold make_return. by destruct (dim =? 2).
Qed.

Lemma iteration_clusters_argmax_witness :
  cube 2 2 [[[0; 0]; [0; 0]]; [[1; 1]; [-2; 3]]]%Q /\
  cube 2 2 (np_zeros3 2 2 2) /\ 0 < 2 /\ 1 < 2 /\
  exists clusters,
    iteration_clusters [[[0; 0]; [0; 0]]; [[1; 1]; [-2; 3]]]%Q
                       (np_zeros3 2 2 2) 1 = inr clusters /\
    length clusters = 2.
Proof.
  assert (H1 : cube 2 2 [[[0; 0]; [0; 0]]; [[1; 1]; [-2; 3]]]%Q)
    by (apply is_cube_true; reflexivity).
  assert (H2 : cube 2 2 (np_zeros3 2 2 2))
    by (apply is_cube_true; reflexivity).
  assert (H3 : 0 < 2) by lia.
  assert (H4 : 1 < 2) by lia.
  repeat (split; [assumption|]).
  destruct (iteration_clusters_argmax 2 2 1 _ _ H1 H2 H3 H4)
    as (clusters & Hrun & Hlen & _).
  exists clusters. split; [exact Hrun|exact Hlen].
Defined.

(** ** Parameter validation *)

Lemma validate_value_error (p i d w : pynum) (e : py_error) :
  validate p i d w = inl e -> exists msg, e = ValueError msg.
Proof.
  unfold validate. intros H.
  repeat (destruct (_ : bool) in H; [injection H as <-; eauto|]).
  discriminate.
Qed.

(** The four checks, one by one. *)
Lemma mode_check (p : pynum) :
  negb (num_eqb p 1) && negb (num_eqb p 2) = false <->
  exists x, num_val p = Some x /\ ((x == 1)%Q \/ (x == 2)%Q).
Proof.
  unfold num_eqb, num_val. destruct (num_xval p) as [q|negative|]; simpl.
  - change (inject_Z 1) with 1%Q. change (inject_Z 2) with 2%Q.
    destruct (Qeq_bool q 1) eqn:E1;
      [apply Qeq_bool_iff in E1|apply Qeq_bool_neq in E1];
    (destruct (Qeq_bool q 2) eqn:E2;
      [apply Qeq_bool_iff in E2|apply Qeq_bool_neq in E2]); simpl;
    (split; [try discriminate; intros _; exists q; auto
            |intros (x & [= <-] & [H|H]); done]).
  - split; [discriminate|]. by intros (x & ? & _).
  - split; [discriminate|]. by intros (x & ? & _).
Qed.

Lemma iterations_check (i : pynum) :
  num_ltb i 1 || negb (type_is_int i) = false <->
  exists n, i = PyInt n /\ (1 <= n)%Z.
Proof.
  destruct i as [z|q|negative| |z]; unfold num_ltb; simpl;
    try (split; [rewrite ?orb_true_r; discriminate
                |intros (n & ? & _); discriminate]).
  rewrite orb_false_r, Qlt_bool_false.
  change 1%Q with (inject_Z 1). rewrite <- Zle_Qle. split.
  - intros Hz. by exists z.
  - by intros (n & [= <-] & Hn).
Qed.

Lemma damping_check (d : pynum) :
  num_leb d 0 || num_gtb d 1 = false <->
  d = PyNaN \/ exists x, num_val d = Some x /\ (0 < x)%Q /\ (x <= 1)%Q.
Proof.
  assert (Hfin : forall q : Q,
            Qle_bool q 0 || Qlt_bool 1 q = false <-> (0 < q)%Q /\ (q <= 1)%Q).
  { intros q. rewrite orb_false_iff, Qlt_bool_false. split.
    - intros [H0 H1]. split; [|done]. apply Qnot_le_lt. intros Hle.
      apply Qle_bool_iff in Hle. congruence.
    - intros [H0 H1]. split; [|done].
      destruct (Qle_bool q 0) eqn:E; [|done].
      apply Qle_bool_iff in E. lra. }
  destruct d as [z|q|[|]| |z]; unfold num_leb, num_gtb, num_val; simpl.
  - rewrite Hfin. split.
    + intros H. right. eauto.
    + by intros [|(x & [= <-] & H)].
  - rewrite Hfin. split.
    + intros H. right. eauto.
    + by intros [|(x & [= <-] & H)].
  - split; [discriminate|]. by intros [|(x & ? & _)].
  - split; [discriminate|]. by intros [|(x & ? & _)].
  - split; [by left|done].
  - rewrite Hfin. split.
    + intros H. right. eauto.
    + by intros [|(x & [= <-] & H)].
Qed.

Lemma window_check (w : pynum) (n : Z) :
  num_ltb w 1 || num_gt w (PyInt n) || negb (type_is_int w) = false <->
  exists m, w = PyInt m /\ (1 <= m <= n)%Z.
Proof.
  destruct w as [z|q|negative| |z]; unfold num_ltb, num_gt; simpl;
    try (split; [rewrite ?orb_true_r; discriminate
                |intros (m & ? & _); discriminate]).
  rewrite orb_false_r, orb_false_iff, !Qlt_bool_false.
  change 1%Q with (inject_Z 1). rewrite <- !Zle_Qle. split.
  - intros Hz. by exists z.
  - by intros (m & [= <-] & Hm).
Qed.

Lemma validate_ok_iff (p i d w : pynum) :
  validate p i d w = inr tt <-> valid_params p i d w.
Proof.
  unfold validate, valid_params.
  destruct (negb (num_eqb p 1) && negb (num_eqb p 2)) eqn:E1.
  { split; [discriminate|]. intros (Hp & _).
    apply mode_check in Hp. congruence. }
  apply mode_check in E1.
  destruct (num_ltb i 1 || negb (type_is_int i)) eqn:E2.
  { split; [discriminate|]. intros (_ & Hi & _).
    apply iterations_check in Hi. congruence. }
  apply iterations_check in E2 as (n & -> & Hn).
  destruct (num_leb d 0 || num_gtb d 1) eqn:E3.
  { split; [discriminate|]. intros (_ & _ & Hd & _).
    apply damping_check in Hd. congruence. }
  apply damping_check in E3.
  destruct (num_ltb w 1 || num_gt w (PyInt n) || negb (type_is_int w)) eqn:E4.
  { split; [discriminate|]. intros (_ & _ & _ & m & n' & -> & [= <-] & Hm).
    assert (Hw : exists m', PyInt m = PyInt m' /\ (1 <= m' <= n)%Z) by eauto.
    apply window_check in Hw. congruence. }
  apply window_check in E4 as (m & -> & Hm).
  split; [intros _|done].
  split; [done|]. split; [eauto|]. split; [done|]. by exists m, n.
Qed.

(** Apart from a NaN damping, the checks accept the parameters the design
    document calls valid, provided the two counts are Python [int]s. *)
Lemma valid_params_spec (p i d w : pynum) :
  d <> PyNaN ->
  valid_params p i d w <->
  spec_valid_params p i d w /\ type_is_int i = true /\ type_is_int w = true.
Proof.
  intros Hd. unfold valid_params, spec_valid_params. split.
  - intros (Hp & (n & -> & Hn) & [->|Hx] & (m & n' & -> & [= <-] & Hm));
      [done|].
    split; [|done]. split; [done|]. split; [by exists n|].
    split; [done|]. by exists m, n.
  - intros ((Hp & (n & Hi & Hn) & Hx & (m & n' & Hw & Hi' & Hm)) & Ti & Tw).
    destruct i as [zi| | | |]; try discriminate Ti.
    destruct w as [zw| | | |]; try discriminate Tw.
    simpl in Hi, Hi', Hw.
    injection Hi as <-. injection Hi' as <-. injection Hw as <-.
    split; [done|]. split; [by exists zi|]. split; [by right|].
    by exists zw, zi.
Qed.

Lemma afprop_vec2_validate_error (g : globals) (mydata : matrix)
    (p i d w : pynum) (e : py_error) :
  validate p i d w = inl e -> afprop_vec2 g mydata p i d w = inl e.
Proof. unfold afprop_vec2. by intros ->. Qed.

Lemma afprop_vec2_name_error (mydata : matrix) (p i d w : pynum) :
  validate p i d w = inr tt ->
  afprop_vec2 temp_globals mydata p i d w
  = inl (NameError "create_s_metric_matrix").
Proof. unfold afprop_vec2. by intros ->. Qed.

(** C8 (amended). For a damping that is not NaN, [afprop_vec2] raises
    [ValueError] exactly when the preference mode does not equal 1 or 2, or
    the iteration count is not a Python [int] of at least 1, or the damping
    is outside (0,1], or the stability window is not a Python [int] between
    1 and the iteration count; that is, exactly when the parameters are not
    those the design document calls valid or one of the two counts is of
    another type than [int] (a NumPy integer, say), whatever its value.
    The error is decided by the parameters alone, whatever the data:
    nothing has been computed.  In particular mode 0, damping 2 and a
    window above the iteration count are rejected. *)
Theorem afprop_vec2_value_error (p i d w : pynum) :
  d <> PyNaN ->
  (forall mydata,
     (exists msg, afprop_vec2 temp_globals mydata p i d w = inl (ValueError msg))
     <-> ~ (spec_valid_params p i d w /\
            type_is_int i = true /\ type_is_int w = true)) /\
  (~ (spec_valid_params p i d w /\
      type_is_int i = true /\ type_is_int w = true) ->
     exists msg, validate p i d w = inl (ValueError msg) /\
       forall mydata,
         afprop_vec2 temp_globals mydata p i d w = inl (ValueError msg)) /\
  ~ spec_valid_params (PyInt 0) i d w /\
  ~ spec_valid_params p i (PyInt 2) w /\
  (num_gt w i = true -> ~ spec_valid_params p i d w).
Proof.
  intros Hnan.
  assert (Hinv : ~ (spec_valid_params p i d w /\
                    type_is_int i = true /\ type_is_int w = true) ->
    exists msg, validate p i d w = inl (ValueError msg)).
  { intros Hnv. destruct (validate p i d w) as [e|[]] eqn:Hv.
    - destruct (validate_value_error _ _ _ _ _ Hv) as [msg ->]. eauto.
    - apply validate_ok_iff, (valid_params_spec p i d w Hnan) in Hv. done. }
  split; [|split; [|split; [|split]]].
  - intros mydata. split.
    + intros [msg Hrun] Hvalid.
      apply (valid_params_spec p i d w Hnan), validate_ok_iff in Hvalid.
      rewrite (afprop_vec2_name_error mydata _ _ _ _ Hvalid) in Hrun.
      discriminate.
    + intros Hnv. destruct (Hinv Hnv) as [msg Hv]. exists msg.
      by apply afprop_vec2_validate_error.
  - intros Hnv. destruct (Hinv Hnv) as [msg Hv]. exists msg.
    split; [done|]. intros mydata. by apply afprop_vec2_validate_error.
  - intros ((x & [= <-] & [H|H]) & _); discriminate H.
  - intros (_ & _ & (x & [= <-] & _ & H) & _). by apply H.
  - intros Hgt (_ & _ & _ & (m & n & Hw & Hi & Hm)).
    unfold num_gt in Hgt.
    destruct w as [zw| | | |zw]; try discriminate Hw;
      (destruct i as [zi| | | |zi]; try discriminate Hi);
      simpl in Hw, Hi, Hgt; injection Hw as <-; injection Hi as <-;
      apply Qlt_bool_spec in Hgt; rewrite <- Zlt_Qlt in Hgt; lia.
Qed.

(** ** The driver in the module's own namespace *)

(** C1. With valid parameters [afprop_vec2] never returns: in the
    namespace of the module the first global call, to
    [create_s_metric_matrix], raises [NameError], because neither that name
    nor [create_s_matrix] is bound there.  Were both bound to functions
    that return, the call of [init_r_array] with two arguments would raise
    [TypeError] (its [def] takes one); and whatever the namespace binds
    elsewhere, the call of [r_array_update] with six arguments raises
    [TypeError] (its [def] takes five), so no iteration of the loop can
    complete. *)
Theorem afprop_vec2_raises (mydata : matrix) (p i d w : pynum) :
  valid_params p i d w ->
  afprop_vec2 temp_globals mydata p i d w
    = inl (NameError "create_s_metric_matrix") /\
  lookup_global temp_globals "create_s_metric_matrix" = None /\
  lookup_global temp_globals "create_s_matrix" = None /\
  (forall g,
     (forall args, exists c, call g "create_s_metric_matrix" args = inr c) ->
     (forall args, exists c, call g "create_s_matrix" args = inr c) ->
     lookup_global g "init_r_array" = Some (Some def_init_r_array) ->
     afprop_vec2 g mydata p i d w = inl (TypeError init_r_array_arity_msg)) /\
  (forall g n s_matrix niter st,
     lookup_global g "r_array_update" = Some (Some def_r_array_update) ->
     update_r_call g n s_matrix d niter st
       = inl (TypeError r_array_update_arity_msg) /\
     exists e, mp_step g n s_matrix d niter st = inl e).
Proof.
  intros Hvalid. pose proof Hvalid as Hv. apply validate_ok_iff in Hv.
  split; [by apply afprop_vec2_name_error|].
  split; [reflexivity|]. split; [reflexivity|]. split.
  - intros g Hm Hs Hinit. unfold afprop_vec2. rewrite Hv. cbn [py_bind].
    destruct (Hm [VMatrix mydata; VNum (PyInt (Z.of_nat (shape0 mydata)))])
      as [c1 ->]. cbn [py_bind].
    destruct (Hs [VMatrix mydata; VNum (PyInt (Z.of_nat (shape0 mydata)));
                  VNum p; c1.2]) as [c2 ->]. cbn [py_bind].
    destruct Hvalid as (_ & (z & -> & _) & _).
    cbn [as_int int_val py_bind].
    unfold call. rewrite Hinit. reflexivity.
  - intros g n s_matrix niter st Hupd.
    assert (Hr : forall st', update_r_call g n s_matrix d niter st'
                   = inl (TypeError r_array_update_arity_msg)).
    { intros st'. unfold update_r_call, call. rewrite Hupd. reflexivity. }
    split; [apply Hr|]. unfold mp_step.
    destruct (update_a_call g n d niter st) as [e|st']; cbn [py_bind]; eauto.
Qed.

Lemma afprop_vec2_raises_witness :
  valid_params (PyInt 1) (PyInt 100) (PyFloat (1 # 2)) (PyInt 10) /\
  afprop_vec2 temp_globals [[0; 0]; [4; 4]]%Q
              (PyInt 1) (PyInt 100) (PyFloat (1 # 2)) (PyInt 10)
    = inl (NameError "create_s_metric_matrix").
Proof.
  assert (H : valid_params (PyInt 1) (PyInt 100) (PyFloat (1 # 2)) (PyInt 10)).
  { apply validate_ok_iff. reflexivity. }
  split; [exact H|].
  exact (proj1 (afprop_vec2_raises [[0; 0]; [4; 4]]%Q _ _ _ _ H)).
Defined.

(** With the two missing names bound, the driver gets as far as the call of
    [init_r_array] and fails there. *)
Example afprop_vec2_bound_names_type_error :
  afprop_vec2 temp_globals_bound [[0; 0]; [4; 4]]%Q
              (PyInt 1) (PyInt 100) (PyFloat (1 # 2)) (PyInt 10)
  = inl (TypeError init_r_array_arity_msg).
Proof. vm_compute. reflexivity. Qed.

(** ** The iteration loop *)

Lemma firesb_spec (c : nat -> list nat) (w t : nat) :
  firesb c w t = true <-> fires c w t.
Proof.
  unfold firesb, fires. rewrite andb_true_iff, Nat.ltb_lt, forallb_forall.
  split; intros [Hw H]; (split; [done|]).
  - intros j Hj. eapply bool_decide_eq_true_1, H, in_seq. lia.
  - intros j Hj%in_seq. apply bool_decide_eq_true_2, H. lia.
Qed.

Lemma forallb_slice (P : Q -> bool) (Pn : nat -> bool) (l : list Q) (lo w : nat) :
  (forall j, lo <= j < lo + w -> exists x, l !! j = Some x /\ P x = Pn j) ->
  forallb P (take w (drop lo l)) = forallb Pn (seq lo w).
Proof.
  revert lo. induction w as [|w IH]; intros lo H; [by rewrite take_0|].
  destruct (H lo) as (x & Hx & HP); [lia|].
  rewrite (drop_S _ _ _ Hx). simpl. rewrite HP. f_equal.
  apply IH. intros j Hj. apply H. lia.
Qed.

Section Tracker.
Variable step : nat -> tensor * tensor -> py (tensor * tensor).
Variables dim n iters w : nat.
Variable r_array0 : tensor.
Variable c : nat -> list nat.

Hypothesis c_init : c 0 = replicate n 0.
Hypothesis c_run : forall t, 1 <= t < iters ->
  clusters_at step (np_zeros3 iters n n, r_array0) t = inr (c t).

Local Abbreviation flag_value := (flag_value c).
Local Abbreviation loop_inv := (loop_inv step n iters r_array0 c).

Lemma loop_inv_init : loop_inv 0 (init_state n iters r_array0).
Proof.
  unfold loop_inv, init_state. simpl. repeat split; try done.
  - unfold np_zeros. by rewrite length_replicate.
  - intros j Hj. unfold np_zeros, flag_value.
    rewrite lookup_replicate_2 by done.
    rewrite bool_decide_eq_false_2; [done|]. lia.
Qed.

Lemma window_stable_firesb (t : nat) (stab : list Q) :
  S t < iters ->
  (forall j, j < iters -> stab !! j = Some (flag_value (S t) j)) ->
  window_stable stab w (S t) = firesb c w (S t).
Proof.
  intros Ht Hstab. unfold window_stable, firesb, py_slice.
  destruct (Nat.ltb_spec w (S t)) as [Hw|Hw]; [|done]. simpl.
  replace (S t - (S t - w)) with w by lia.
  apply forallb_slice. intros j Hj. eexists. split; [apply Hstab; lia|].
  unfold flag_value.
  destruct (decide (c j = c (j - 1))) as [Heq|Hne].
  - rewrite !bool_decide_eq_true_2; [done..|]. split; [lia|done].
  - rewrite !bool_decide_eq_false_2; [done..|]. by intros [_ ?].
Qed.

Lemma loop_body_run (t : nat) (st : loop_state) :
  S t < iters -> loop_inv t st ->
  exists st',
    loop_inv (S t) st' /\
    loop_body step dim n iters w (S t) st
    = inr (if firesb c w (S t)
           then inr ([], make_return dim n (S t) (c (S t)))
           else inl st').
Proof.
  intros Ht (Hmp & Hprev & Hlen & Hstab & Hout).
  assert (Hout0 : ls_stdout st = []).
  { rewrite Hout. destruct (Nat.eqb_spec t (iters - 1)); [lia|].
    by rewrite andb_false_r. }
  pose proof (c_run (S t)) as Hc. unfold clusters_at in Hc. simpl in Hc.
  rewrite Hmp in Hc. cbn [py_bind] in Hc.
  destruct (step (S t) (ls_a_array st, ls_r_array st)) as [e|[a r]] eqn:Hstep;
    [specialize (Hc ltac:(lia)); discriminate|].
  cbn [py_bind fst snd] in Hc. specialize (Hc ltac:(lia)).
  set (stab := if bool_decide (c (S t) = c t)
               then <[S t := 1%Q]> (ls_iter_stability st)
               else ls_iter_stability st).
  assert (Hstab' : forall j, j < iters -> stab !! j = Some (flag_value (S t) j)).
  { intros j Hj. unfold stab, flag_value.
    destruct (decide (j = S t)) as [->|Hne].
    - replace (S t - 1) with t by lia.
      destruct (decide (c (S t) = c t)) as [Heq|Hneq].
      + rewrite !bool_decide_eq_true_2; [|split; [lia|done]|done].
        apply list_lookup_insert_eq. lia.
      + rewrite !bool_decide_eq_false_2; [|by intros [_ ?]|done].
        rewrite Hstab by done. unfold flag_value.
        rewrite bool_decide_eq_false_2; [done|]. lia.
    - assert (Hold : ls_iter_stability st !! j = Some (flag_value (S t) j)).
      { rewrite Hstab by done. unfold flag_value.
        destruct (decide (1 <= j <= t /\ c j = c (j - 1))) as [Hd|Hd].
        - rewrite !bool_decide_eq_true_2; [done| |done].
          destruct Hd. split; [lia|done].
        - rewrite !bool_decide_eq_false_2; [done| |done].
          intros [? ?]. apply Hd. split; [lia|done]. }
      unfold flag_value in Hold. destruct (bool_decide (c (S t) = c t)).
      + by rewrite list_lookup_insert_ne.
      + done. }
  exists (LoopState a r (c (S t)) stab
            (if S t =? iters - 1 then [stability_msg] else [])).
  split.
  - unfold loop_inv. cbn [ls_a_array ls_r_array ls_clusters_prev
                           ls_iter_stability ls_stdout].
    split; [simpl; by rewrite Hmp|]. split; [done|].
    split; [unfold stab; destruct (bool_decide _);
            by rewrite ?length_insert|].
    split; [done|]. done.
  - unfold loop_body. rewrite Hstep. cbn [py_bind fst snd].
    rewrite Hc. cbn [py_bind]. rewrite Hprev.
    assert (Hset : (if bool_decide (c (S t) = c t)
                    then set_idx (ls_iter_stability st) (S t) 1%Q
                    else inr (ls_iter_stability st)) = inr stab).
    { unfold stab. destruct (bool_decide _); [|done].
      apply set_idx_lt. lia. }
    rewrite Hset. cbn [py_bind].
    fold (window_stable stab w (S t)).
    rewrite (window_stable_firesb t stab Ht Hstab').
    destruct (firesb c w (S t)).
    + rewrite Hout0. fold (make_return dim n (S t) (c (S t))).
      unfold make_return. by destruct (dim =? 2).
    + by rewrite Hout0.
Qed.

(** The loop returns at the first iteration at which the test fires, and
    otherwise runs off its end. *)
Lemma afprop_loop_run (m t : nat) (st : loop_state) :
  S t + m = iters -> loop_inv t st ->
  afprop_loop (loop_body step dim n iters w) (seq (S t) m) st
  = inr (match first_fire c w (seq (S t) m) with
         | Some t' => ([], make_return dim n t' (c t'))
         | None => (if 1 <=? t + m then [stability_msg] else [], RetNone)
         end).
Proof.
  revert t st. induction m as [|m IH]; intros t st Hm Hinv.
  - simpl. destruct Hinv as (_ & _ & _ & _ & ->).
    rewrite Nat.add_0_r.
    replace (t =? iters - 1) with true by (symmetry; apply Nat.eqb_eq; lia).
    by rewrite andb_true_r.
  - cbn [seq afprop_loop first_fire].
    destruct (loop_body_run t st ltac:(lia) Hinv) as (st' & Hinv' & ->).
    cbn [py_bind]. destruct (firesb c w (S t)); [done|].
    rewrite (IH (S t) st') by (done || lia).
    destruct (first_fire c w (seq (S (S t)) m)); [done|].
    by replace (S t + m) with (t + S m) by lia.
Qed.
End Tracker.


Lemma first_fire_None (c : nat -> list nat) (w s m : nat) :
  (forall t, s <= t < s + m -> ~ fires c w t) ->
  first_fire c w (seq s m) = None.
Proof.
  revert s. induction m as [|m IH]; intros s Hnf; [done|].
  simpl. destruct (firesb c w s) eqn:Hs.
  - apply firesb_spec in Hs. exfalso. apply (Hnf s); [lia|done].
  - apply IH. intros t Ht. apply Hnf. lia.
Qed.



(** X17. For any update step whose iterations all complete: when no
    iteration satisfies the test of line 149, the loop ends without
    [return], which hands [None] to the caller, a value that carries
    neither labels nor exemplars; the stability message is printed, once,
    exactly when the loop has an iteration at all ([iterations >= 2]). *)
Theorem exhausted_returns_none
    (step : nat -> tensor * tensor -> py (tensor * tensor))
    (dim n iters w : nat) (r_array0 : tensor) (c : nat -> list nat) :
  1 <= iters ->
  c 0 = replicate n 0 ->
  (forall t, 1 <= t < iters ->
     clusters_at step (np_zeros3 iters n n, r_array0) t = inr (c t)) ->
  (forall t, 1 <= t < iters -> ~ fires c w t) ->
  afprop_loop (loop_body step dim n iters w) (seq 1 (iters - 1))
              (init_state n iters r_array0)
  = inr (if 2 <=? iters then [stability_msg] else [], RetNone) /\
  ret_clusters RetNone = None /\ ret_exemplars RetNone = None.
Proof.
  intros Hiters Hc0 Hc Hnf. split; [|done].
  rewrite (afprop_loop_run step dim n iters w r_array0 c Hc
             (iters - 1) 0 _ ltac:(lia)
             (loop_inv_init step n iters r_array0 c Hc0)).
  rewrite first_fire_None by (intros t Ht; apply Hnf; lia).
  do 2 f_equal. rewrite Nat.add_0_l.
  destruct (Nat.leb_spec 1 (iters - 1)), (Nat.leb_spec 2 iters); (done || lia).
Qed.

(** ** Labels, exemplars and the cluster count *)

Lemma elem_of_where_from (mask : list bool) (s i : nat) :
  i ∈ where_from s mask <-> exists j, mask !! j = Some true /\ i = s + j.
Proof.
  revert s. induction mask as [|b mask IH]; intros s; simpl.
  - split; [by intros ?%elem_of_nil|by intros (j & ? & _)].
  - assert (Hrest : i ∈ where_from (S s) mask <->
                    exists j, (b :: mask) !! S j = Some true /\ i = s + S j).
    { rewrite IH. split; intros (j & Hj & ->); exists j; (split; [done|lia]). }
    destruct b.
    + rewrite elem_of_cons, Hrest. split.
      * intros [->|(j & Hj & ->)]; [exists 0; split; [done|lia]|eauto].
      * intros ([|j] & Hj & ->); [left; lia|right; eauto].
    + rewrite Hrest. split.
      * intros (j & Hj & ->). eauto.
      * intros ([|j] & Hj & ->); [done|eauto].
Qed.

Lemma NoDup_where_from (mask : list bool) (s : nat) : NoDup (where_from s mask).
Proof.
  revert s. induction mask as [|b mask IH]; intros s; simpl; [constructor|].
  destruct b; [|apply IH]. constructor; [|apply IH].
  intros (j & _ & Hj)%elem_of_where_from. lia.
Qed.

Lemma elem_of_exemplars (clusters : list nat) (n i : nat) :
  i ∈ np_where (is_center clusters n) <-> i < n /\ clusters !! i = Some i.
Proof.
  unfold np_where, is_center. rewrite elem_of_where_from. split.
  - intros (j & Hj & ->). simpl.
    apply lookup_zip_with_Some in Hj as (x & y & Heq & Hx & Hy).
    apply lookup_seq in Hy as [-> Hjn]. simpl in Heq.
    symmetry in Heq. apply Nat.eqb_eq in Heq as ->. done.
  - intros [Hi Hc]. exists i. split; [|done].
    apply lookup_zip_with_Some. exists i, i.
    split; [by rewrite Nat.eqb_refl|]. split; [done|].
    by apply lookup_seq.
Qed.

Lemma afprop_loop_return
    (body : nat -> loop_state -> py (loop_state + list string * afprop_return))
    (niters : list nat) (st : loop_state) (out : list string)
    (ret : afprop_return) :
  afprop_loop body niters st = inr (out, ret) -> ret <> RetNone ->
  exists niter st', body niter st' = inr (inr (out, ret)).
Proof.
  revert st. induction niters as [|niter rest IH]; intros st; simpl.
  - intros [= _ <-]. done.
  - intros H Hne. apply py_bind_inv in H as ([st'|res] & Hb & H).
    + by apply (IH st').
    + injection H as ->. eauto.
Qed.

(** X18. For every tuple the loop returns, whatever the update step,
    [num_clusters] is the number of distinct labels and the exemplars are
    the points labelled with themselves.  Every exemplar is a label, so the
    number of exemplars is at most [num_clusters]; the two are equal
    exactly when every label is an exemplar. *)
Theorem num_clusters_vs_exemplars
    (step : nat -> tensor * tensor -> py (tensor * tensor))
    (dim n iters w : nat) (niters : list nat) (st : loop_state)
    (out : list string) (ret : afprop_return) :
  afprop_loop (loop_body step dim n iters w) niters st = inr (out, ret) ->
  ret <> RetNone ->
  exists clusters exemplars num_clusters,
    ret_clusters ret = Some clusters /\
    ret_exemplars ret = Some exemplars /\
    ret_num_clusters ret = Some num_clusters /\
    num_clusters = length (remove_dups clusters) /\
    NoDup exemplars /\
    (forall i, i ∈ exemplars <-> i < n /\ clusters !! i = Some i) /\
    (forall i, i ∈ exemplars -> i ∈ clusters) /\
    length exemplars <= num_clusters /\
    (length exemplars = num_clusters <->
     forall l, l ∈ clusters -> l ∈ exemplars).
Proof.
  intros Hrun Hne.
  apply afprop_loop_return in Hrun as (niter & st' & Hbody); [|done].
  apply loop_body_inv in Hbody as (a & r & clusters & stab & _ & _ & _ & Ho).
  destruct (window_stable stab w niter); [|discriminate].
  injection Ho as _ ->.
  set (exemplars := np_where (is_center clusters n)).
  exists clusters, exemplars, (length (np_unique clusters)).
  assert (Hnum : length (np_unique clusters) = length (remove_dups clusters)).
  { unfold np_unique. by rewrite merge_sort_Permutation. }
  assert (Hnd : NoDup exemplars) by apply NoDup_where_from.
  assert (Hin : forall i, i ∈ exemplars -> i ∈ clusters).
  { intros i [_ Hi]%elem_of_exemplars. eapply list_elem_of_lookup_2; eauto. }
  assert (Hsub : exemplars ⊆+ remove_dups clusters).
  { apply NoDup_submseteq; [done|].
    intros i Hi. apply elem_of_remove_dups. auto. }
  unfold make_return.
  split; [by destruct (dim =? 2)|]. split; [by destruct (dim =? 2)|].
  split; [by destruct (dim =? 2)|]. split; [done|]. split; [done|].
  split; [intros i; apply elem_of_exemplars|]. split; [done|].
  rewrite Hnum. split; [by apply submseteq_length|]. split.
  - intros Hlen l Hl.
    assert (Hperm : exemplars ≡ₚ remove_dups clusters)
      by (apply submseteq_length_Permutation; [done|lia]).
    rewrite Hperm. by apply elem_of_remove_dups.
  - intros Hall. apply Permutation_length, NoDup_Permutation;
      [done|apply NoDup_remove_dups|].
    intros i. rewrite elem_of_remove_dups. split; auto.
Qed.

(** ** Shapes of the set-up *)

Lemma calc_similarity_matrix_square (mydata : matrix) (num_cluster_pref : pynum) :
  1 <= length mydata ->
  exists s, calc_similarity_matrix mydata num_cluster_pref = inr s /\
            square (length mydata) s.
Proof.
  intros Hn. set (neg := neg_sq_dists mydata).
  destruct (lookup_lt_is_Some_2 mydata 0) as [p0 Hp0]; [lia|].
  assert (Hne : concat neg <> []).
  { intros Hnil.
    assert (Hin : (- sq_dist p0 p0)%Q ∈ concat neg).
    { apply elem_of_neg_sq_dists. by exists 0, 0, p0, p0. }
    rewrite Hnil in Hin. by apply elem_of_nil in Hin. }
  assert (Hpref : exists p,
    (if num_eqb num_cluster_pref 1 then np_min (concat neg)
     else np_median (concat neg)) = inr p).
  { destruct (num_eqb num_cluster_pref 1).
    - destruct (np_min_spec _ Hne) as (mn & -> & _). by exists mn.
    - unfold np_median. rewrite length_np_sort.
      rewrite decide_False by (by destruct (concat neg)).
      destruct (Nat.even _); eauto. }
  destruct Hpref as [p Hp]. exists (fill_diagonal neg p).
  split; [unfold calc_similarity_matrix; fold neg; by rewrite Hp|].
  unfold fill_diagonal, neg, neg_sq_dists. split.
  - by rewrite length_imap, length_fmap.
  - intros row [i Hi]%list_elem_of_lookup.
    apply list_lookup_imap_Some in Hi as (row0 & Hrow0 & ->).
    apply list_lookup_fmap_Some in Hrow0 as (pi & -> & _).
    by rewrite length_insert, length_fmap.
Qed.

Lemma init_r_array_square (n : nat) (s_matrix : matrix) :
  square n s_matrix -> 1 <= n ->
  exists r0, init_r_array s_matrix = inr r0 /\ square n r0.
Proof.
  intros [Hlen Hrows] Hn. eexists. split.
  - apply init_r_array_eq.
    + intros ->. simpl in Hlen. lia.
    + intros row Hrow ->. specialize (Hrows [] Hrow). simpl in Hrows. lia.
  - split; [by rewrite length_fmap|].
    intros row (row0 & -> & Hin)%list_elem_of_fmap.
    rewrite length_fmap. auto.
Qed.

(** ** Runs of the loop *)


Lemma exhausted_returns_none_witness :
  1 <= 2 /\
  line3_c 0 = replicate 3 0 /\
  (forall t, 1 <= t < 2 ->
     clusters_at (update_step 3 line3_s 1)
                 (np_zeros3 2 3 3, line3_r0 :: np_zeros3 1 3 3) t
     = inr (line3_c t)) /\
  (forall t, 1 <= t < 2 -> ~ fires line3_c 1 t) /\
  afprop_loop (loop_body (update_step 3 line3_s 1) 1 3 2 1) (seq 1 (2 - 1))
              (init_state 3 2 (line3_r0 :: np_zeros3 1 3 3))
  = inr (if 2 <=? 2 then [stability_msg] else [], RetNone).
Proof.
  assert (Hi : 1 <= 2) by lia.
  assert (H0 : line3_c 0 = replicate 3 0) by reflexivity.
  assert (H1 : forall t, 1 <= t < 2 ->
     clusters_at (update_step 3 line3_s 1)
                 (np_zeros3 2 3 3, line3_r0 :: np_zeros3 1 3 3) t
     = inr (line3_c t)).
  { intros t Ht. assert (t = 1) as -> by lia. vm_compute. reflexivity. }
  assert (H2 : forall t, 1 <= t < 2 -> ~ fires line3_c 1 t).
  { intros t Ht [Hw _]. lia. }
  split; [exact Hi|]. split; [exact H0|]. split; [exact H1|].
  split; [exact H2|].
  exact (proj1 (exhausted_returns_none (update_step 3 line3_s 1) 1 3 2 1
                  (line3_r0 :: np_zeros3 1 3 3) line3_c Hi H0 H1 H2)).
Defined.

Lemma num_clusters_vs_exemplars_witness :
  afprop_loop (loop_body (update_step 3 line3_s 1) 1 3 10 1) (seq 1 9)
              (init_state 3 10 (line3_r0 :: np_zeros3 9 3 3))
  = inr ([], Ret4 [0; 0; 1] [0] 2 4) /\
  Ret4 [0; 0; 1] [0] 2 4 <> RetNone /\
  exists clusters exemplars num_clusters,
    ret_clusters (Ret4 [0; 0; 1] [0] 2 4) = Some clusters /\
    ret_exemplars (Ret4 [0; 0; 1] [0] 2 4) = Some exemplars /\
    ret_num_clusters (Ret4 [0; 0; 1] [0] 2 4) = Some num_clusters /\
    length exemplars <= num_clusters.
Proof.
  assert (H1 : afprop_loop (loop_body (update_step 3 line3_s 1) 1 3 10 1)
                 (seq 1 9) (init_state 3 10 (line3_r0 :: np_zeros3 9 3 3))
               = inr ([], Ret4 [0; 0; 1] [0] 2 4))
    by (vm_compute; reflexivity).
  assert (H2 : Ret4 [0; 0; 1] [0] 2 4 <> RetNone) by discriminate.
  split; [exact H1|]. split; [exact H2|].
  destruct (num_clusters_vs_exemplars _ _ _ _ _ _ _ _ _ H1 H2)
    as (clusters & exemplars & num & Hc & He & Hn & _ & _ & _ & _ & Hle & _).
  exists clusters, exemplars, num. repeat (split; [assumption|]). exact Hle.
Defined.

Lemma afprop_vec2_value_error_witness :
  PyFloat (1 # 2) <> PyNaN /\
  ~ spec_valid_params (PyInt 0) (PyInt 100) (PyFloat (1 # 2)) (PyInt 10) /\
  exists msg, forall mydata,
    afprop_vec2 temp_globals mydata
                (PyInt 0) (PyInt 100) (PyFloat (1 # 2)) (PyInt 10)
    = inl (ValueError msg).
Proof.
  assert (Hd : PyFloat (1 # 2) <> PyNaN) by discriminate.
  pose proof (afprop_vec2_value_error
                (PyInt 0) (PyInt 100) (PyFloat (1 # 2)) (PyInt 10) Hd)
    as (_ & Hfail & Hmode & _).
  split; [exact Hd|]. split; [exact Hmode|].
  destruct (Hfail (fun H => Hmode (proj1 H))) as (msg & _ & Hall).
  exists msg. exact Hall.
Defined.

(** The claim as the design document states it fails in both directions.
    A NumPy integer 100 as iteration count is a positive integer, all four
    conditions of the document hold, and the call is rejected with
    [ValueError] by the test [type(iterations) != int] of line 80.  A NaN
    damping is outside (0,1]; both comparisons of line 82 are false on it,
    the checks pass, and the call goes on to the [NameError] of line 95. *)
Lemma afprop_vec2_value_error_counterexample :
  (spec_valid_params (PyInt 1) (PyNpInt 100) (PyFloat (1 # 2)) (PyInt 10) /\
   afprop_vec2 temp_globals [[0; 0]; [4; 4]]%Q
               (PyInt 1) (PyNpInt 100) (PyFloat (1 # 2)) (PyInt 10)
   = inl (ValueError "Enter a valid number of iterations.")) /\
  (~ spec_valid_params (PyInt 1) (PyInt 100) PyNaN (PyInt 10) /\
   validate (PyInt 1) (PyInt 100) PyNaN (PyInt 10) = inr tt /\
   afprop_vec2 temp_globals [[0; 0]; [4; 4]]%Q
               (PyInt 1) (PyInt 100) PyNaN (PyInt 10)
   = inl (NameError "create_s_metric_matrix")).
Proof.
  split; [split|split; [|split]].
  - split; [exists 1%Q; split; [reflexivity|left; reflexivity]|].
    split; [exists 100%Z; split; [reflexivity|lia]|].
    split; [exists (1 # 2)%Q; split; [reflexivity|split; lra]|].
    exists 10%Z, 100%Z. split; [reflexivity|]. split; [reflexivity|lia].
  - reflexivity.
  - intros (_ & _ & (x & Hx & _) & _). discriminate Hx.
  - reflexivity.
  - reflexivity.
Qed.

(** * Further properties of the helpers and of the loop *)

(** ** More on the similarity matrix *)

Lemma sq_dist_sym (p q : vec) : (sq_dist p q == sq_dist q p)%Q.
Proof.
  unfold sq_dist. revert q. induction p as [|x p IH]; intros [|y q]; simpl;
    try reflexivity.
  rewrite (IH q). ring.
Qed.

Lemma calc_similarity_matrix_inv (mydata : matrix) (num_cluster_pref : pynum)
    (s : matrix) :
  calc_similarity_matrix mydata num_cluster_pref = inr s ->
  exists p,
    (if num_eqb num_cluster_pref 1 then np_min (concat (neg_sq_dists mydata))
     else np_median (concat (neg_sq_dists mydata))) = inr p /\
    s = fill_diagonal (neg_sq_dists mydata) p.
Proof.
  unfold calc_similarity_matrix. intros H.
  apply py_bind_inv in H as (p & Hp & [= <-]). by exists p.
Qed.

(** The entries of [fill_diagonal (neg_sq_dists mydata) p]. *)
Lemma similarity_entry (mydata : matrix) (p : Q) (i k : nat) (pi pk : vec) :
  mydata !! i = Some pi -> mydata !! k = Some pk ->
  entry (fill_diagonal (neg_sq_dists mydata) p) i k
  = if decide (i = k) then p else (- sq_dist pi pk)%Q.
Proof.
  intros Hi Hk.
  destruct (neg_sq_dists_lookup mydata i k pi pk Hi Hk) as (row & Hr & Hl & Hx).
  unfold entry, fill_diagonal. rewrite list_lookup_imap, Hr. simpl.
  destruct (decide (i = k)) as [->|Hne].
  - rewrite list_lookup_insert_eq; [done|]. apply lookup_lt_Some in Hk. lia.
  - by rewrite list_lookup_insert_ne, Hx.
Qed.

Lemma similarity_entry_outside (mydata : matrix) (p : Q) (i k : nat) :
  length mydata <= i \/ length mydata <= k ->
  entry (fill_diagonal (neg_sq_dists mydata) p) i k = 0%Q.
Proof.
  intros Hout. unfold entry, fill_diagonal, neg_sq_dists.
  rewrite list_lookup_imap, list_lookup_fmap.
  destruct (mydata !! i) as [pi|] eqn:Hi; [|done]. simpl.
  destruct Hout as [Hout|Hout]; [apply lookup_lt_Some in Hi; lia|].
  rewrite lookup_ge_None_2; [done|]. by rewrite length_insert, length_fmap.
Qed.

(** X1. Whatever the mode, the matrix [calc_similarity_matrix] returns is
    square, with one row and one column per point, and symmetric. *)
Theorem calc_similarity_matrix_symmetric (mydata : matrix)
    (num_cluster_pref : pynum) (s : matrix) :
  calc_similarity_matrix mydata num_cluster_pref = inr s ->
  square (length mydata) s /\
  forall i k, (entry s i k == entry s k i)%Q.
Proof.
  intros Hrun. split.
  - destruct (calc_similarity_matrix_square mydata num_cluster_pref)
      as (s' & Hs' & Hsq).
    + destruct mydata; [|simpl; lia].
      apply calc_similarity_matrix_inv in Hrun as (p & Hp & _).
      simpl in Hp. destruct (num_eqb num_cluster_pref 1); discriminate.
    + congruence.
  - apply calc_similarity_matrix_inv in Hrun as (p & _ & ->).
    intros i k.
    destruct (mydata !! i) as [pi|] eqn:Hi; cycle 1.
    { apply lookup_ge_None in Hi.
      rewrite !similarity_entry_outside by auto. reflexivity. }
    destruct (mydata !! k) as [pk|] eqn:Hk; cycle 1.
    { apply lookup_ge_None in Hk.
      rewrite !similarity_entry_outside by auto. reflexivity. }
    rewrite (similarity_entry mydata p i k pi pk Hi Hk).
    rewrite (similarity_entry mydata p k i pk pi Hk Hi).
    destruct (decide (i = k)) as [->|Hne].
    + rewrite decide_True by done. reflexivity.
    + rewrite decide_False by done. by rewrite sq_dist_sym.
Qed.

Lemma calc_similarity_matrix_symmetric_witness :
  calc_similarity_matrix line3 (PyInt 2) = inr line3_s /\
  square (length line3) line3_s /\
  forall i k, (entry line3_s i k == entry line3_s k i)%Q.
Proof.
  assert (H : calc_similarity_matrix line3 (PyInt 2) = inr line3_s)
    by reflexivity.
  split; [exact H|].
  exact (calc_similarity_matrix_symmetric line3 (PyInt 2) line3_s H).
Defined.

Lemma elem_of_insert_sorted (x y : Q) (l : list Q) :
  y ∈ insert_sorted x l <-> y = x \/ y ∈ l.
Proof.
  induction l as [|z l IH]; simpl.
  - rewrite list_elem_of_singleton, elem_of_nil. tauto.
  - destruct (Qle_bool x z).
    + by rewrite elem_of_cons.
    + rewrite !elem_of_cons, IH. tauto.
Qed.

Lemma elem_of_np_sort (y : Q) (l : list Q) : y ∈ np_sort l <-> y ∈ l.
Proof.
  unfold np_sort. induction l as [|x l IH]; simpl; [done|].
  by rewrite elem_of_insert_sorted, elem_of_cons, IH.
Qed.

(** The median lies between any two bounds of the values. *)
Lemma np_median_bounds (l : list Q) (p lo hi : Q) :
  np_median l = inr p ->
  (forall x, x ∈ l -> (lo <= x)%Q /\ (x <= hi)%Q) ->
  (lo <= p)%Q /\ (p <= hi)%Q.
Proof.
  unfold np_median. intros Hp Hl.
  destruct (decide (length (np_sort l) = 0)) as [|Hm]; [discriminate|].
  assert (Hnth : forall j, j < length (np_sort l) ->
            (lo <= nth j (np_sort l) 0)%Q /\ (nth j (np_sort l) 0 <= hi)%Q).
  { intros j Hj. apply Hl, elem_of_np_sort. by apply nth_elem_of. }
  assert (Hhalf : length (np_sort l) / 2 < length (np_sort l)).
  { apply Nat.div_lt; lia. }
  pose proof (Hnth (length (np_sort l) / 2) Hhalf) as [Hb1 Hb2].
  assert (Ha : length (np_sort l) / 2 - 1 < length (np_sort l)) by lia.
  pose proof (Hnth _ Ha) as [Ha1 Ha2].
  set (a := nth (length (np_sort l) / 2 - 1) (np_sort l) 0%Q) in *.
  set (b := nth (length (np_sort l) / 2) (np_sort l) 0%Q) in *.
  destruct (Nat.even (length (np_sort l))); inversion Hp; subst p.
  - split.
    + apply Qle_shift_div_l; [reflexivity|]. lra.
    + apply Qle_shift_div_r; [reflexivity|]. lra.
  - done.
Qed.

Lemma neg_sq_dists_nonpositive (mydata : matrix) (x : Q) :
  x ∈ concat (neg_sq_dists mydata) -> (x <= 0)%Q.
Proof.
  intros (i & k & pi & pk & _ & _ & ->)%elem_of_neg_sq_dists.
  pose proof (sq_dist_nonneg pi pk). lra.
Qed.

(** The value either mode places on the diagonal lies between any two
    bounds of the values it is computed from. *)
Lemma preference_between (l : list Q) (b : bool) (p lo hi : Q) :
  (if b then np_min l else np_median l) = inr p ->
  (forall x, x ∈ l -> (lo <= x)%Q /\ (x <= hi)%Q) ->
  (lo <= p)%Q /\ (p <= hi)%Q.
Proof.
  intros Hp Hl. destruct b.
  - destruct l as [|x l]; [discriminate|]. injection Hp as <-.
    apply Hl, foldl_Qmin_elem.
  - by apply (np_median_bounds l).
Qed.

Lemma preference_nonpositive (mydata : matrix) (b : bool) (p : Q) :
  (if b then np_min (concat (neg_sq_dists mydata))
   else np_median (concat (neg_sq_dists mydata))) = inr p ->
  (p <= 0)%Q.
Proof.
  intros Hp.
  destruct (np_min_spec (concat (neg_sq_dists mydata))) as (mn & _ & _ & Hmn).
  { intros Hnil. rewrite Hnil in Hp. by destruct b. }
  apply (preference_between _ b p mn 0 Hp). intros x Hx.
  split; [by apply Hmn|by apply (neg_sq_dists_nonpositive mydata)].
Qed.

(** X2. Every entry of a similarity matrix is at most 0, the diagonal
    included, in either mode. *)
Theorem calc_similarity_matrix_nonpositive (mydata : matrix)
    (num_cluster_pref : pynum) (s : matrix) :
  calc_similarity_matrix mydata num_cluster_pref = inr s ->
  forall i k, (entry s i k <= 0)%Q.
Proof.
  intros (p & Hp & ->)%calc_similarity_matrix_inv i k.
  destruct (mydata !! i) as [pi|] eqn:Hi; cycle 1.
  { apply lookup_ge_None in Hi.
    rewrite similarity_entry_outside by auto. apply Qle_refl. }
  destruct (mydata !! k) as [pk|] eqn:Hk; cycle 1.
  { apply lookup_ge_None in Hk.
    rewrite similarity_entry_outside by auto. apply Qle_refl. }
  rewrite (similarity_entry mydata p i k pi pk Hi Hk).
  destruct (decide (i = k)).
  - by apply (preference_nonpositive mydata (num_eqb num_cluster_pref 1)).
  - pose proof (sq_dist_nonneg pi pk). lra.
Qed.

Lemma calc_similarity_matrix_nonpositive_witness :
  calc_similarity_matrix line3 (PyInt 2) = inr line3_s /\
  forall i k, (entry line3_s i k <= 0)%Q.
Proof.
  assert (H : calc_similarity_matrix line3 (PyInt 2) = inr line3_s)
    by reflexivity.
  split; [exact H|].
  exact (calc_similarity_matrix_nonpositive line3 (PyInt 2) line3_s H).
Defined.

(** X3. On the same data, the preference of the median mode is never below
    the preference of the minimum mode, and off the diagonal the two
    matrices are equal: the mode changes the diagonal only, and only
    upwards. *)
Theorem calc_similarity_matrix_modes (mydata : matrix)
    (pref1 pref2 : pynum) (s1 s2 : matrix) :
  num_eqb pref1 1 = true -> num_eqb pref2 1 = false ->
  calc_similarity_matrix mydata pref1 = inr s1 ->
  calc_similarity_matrix mydata pref2 = inr s2 ->
  forall i k,
    (i <> k -> entry s1 i k = entry s2 i k) /\
    (entry s1 i k <= entry s2 i k)%Q.
Proof.
  intros H1 H2 (p1 & Hp1 & ->)%calc_similarity_matrix_inv
    (p2 & Hp2 & ->)%calc_similarity_matrix_inv i k.
  rewrite H1 in Hp1. rewrite H2 in Hp2.
  assert (Hle : (p1 <= p2)%Q).
  { destruct (concat (neg_sq_dists mydata)) as [|x l] eqn:Hl; [discriminate|].
    injection Hp1 as <-.
    apply (preference_between (x :: l) false p2 (foldl Qmin x l) 0 Hp2).
    intros y Hy. split; [by apply foldl_Qmin_le|].
    apply (neg_sq_dists_nonpositive mydata). by rewrite Hl. }
  destruct (mydata !! i) as [pi|] eqn:Hi; cycle 1.
  { apply lookup_ge_None in Hi.
    rewrite !similarity_entry_outside by auto. split; [done|apply Qle_refl]. }
  destruct (mydata !! k) as [pk|] eqn:Hk; cycle 1.
  { apply lookup_ge_None in Hk.
    rewrite !similarity_entry_outside by auto. split; [done|apply Qle_refl]. }
  rewrite (similarity_entry mydata p1 i k pi pk Hi Hk).
  rewrite (similarity_entry mydata p2 i k pi pk Hi Hk).
  destruct (decide (i = k)); [done|]. split; [done|apply Qle_refl].
Qed.

Lemma calc_similarity_matrix_modes_witness :
  num_eqb (PyInt 1) 1 = true /\ num_eqb (PyInt 2) 1 = false /\
  exists s1,
    calc_similarity_matrix line3 (PyInt 1) = inr s1 /\
    calc_similarity_matrix line3 (PyInt 2) = inr line3_s /\
    forall i k,
      (i <> k -> entry s1 i k = entry line3_s i k) /\
      (entry s1 i k <= entry line3_s i k)%Q.
Proof.
  split; [reflexivity|]. split; [reflexivity|].
  eexists. split; [reflexivity|]. split; [reflexivity|].
  exact (calc_similarity_matrix_modes line3 (PyInt 1) (PyInt 2) _ line3_s
           eq_refl eq_refl eq_refl eq_refl).
Defined.

(** X4. For a single data point, of any dimension, both modes return the
    one-by-one matrix whose entry equals 0: the only distance is the
    point's distance to itself, so the preference is 0. *)
Theorem calc_similarity_matrix_single (p : vec) (num_cluster_pref : pynum) :
  exists x, calc_similarity_matrix [p] num_cluster_pref = inr [[x]] /\
            (x == 0)%Q.
Proof.
  exists (- sq_dist p p)%Q. split.
  - unfold calc_similarity_matrix.
    destruct (num_eqb num_cluster_pref 1); reflexivity.
  - rewrite sq_dist_self. reflexivity.
Qed.

(** X5. Without any data point the minimum mode raises [ValueError]: the
    minimum of the empty distance matrix does not exist. *)
Theorem calc_similarity_matrix_empty (num_cluster_pref : pynum) :
  num_eqb num_cluster_pref 1 = true ->
  exists msg, calc_similarity_matrix [] num_cluster_pref = inl (ValueError msg).
Proof.
  intros Hmode. unfold calc_similarity_matrix. rewrite Hmode. simpl.
  by eexists.
Qed.

Lemma calc_similarity_matrix_empty_witness :
  num_eqb (PyInt 1) 1 = true /\
  exists msg, calc_similarity_matrix [] (PyInt 1) = inl (ValueError msg).
Proof.
  split; [reflexivity|].
  exact (calc_similarity_matrix_empty (PyInt 1) eq_refl).
Defined.

(** ** More on the initial responsibilities *)

Lemma py_mapM_inr_all {A B : Type} (f : A -> py B) (xs : list A) (ys : list B) :
  py_mapM f xs = inr ys -> forall x, x ∈ xs -> exists y, f x = inr y.
Proof.
  revert ys. induction xs as [|x xs IH]; intros ys H z Hz.
  - by apply elem_of_nil in Hz.
  - simpl in H. apply py_bind_inv in H as (y & Hy & H).
    apply py_bind_inv in H as (ys' & Hys & _).
    apply elem_of_cons in Hz as [->|Hz]; [by exists y|by apply (IH ys')].
Qed.

Lemma init_r_array_rows_nonempty (s_matrix r0 : matrix) :
  init_r_array s_matrix = inr r0 ->
  s_matrix <> [] /\ forall row, row ∈ s_matrix -> row <> [].
Proof.
  intros H. destruct s_matrix as [|row0 s] eqn:Hs; [discriminate|].
  split; [done|]. unfold init_r_array in H. intros row Hrow ->.
  destruct (py_mapM_inr_all _ _ _ H [] Hrow) as (y & Hy). discriminate.
Qed.

(** X6. What [init_r_array] returns has the shape of its argument; all its
    entries are at most 0 and every row holds an entry equal to 0, at the
    position of the row's maximum. *)
Theorem init_r_array_nonpositive (s_matrix r0 : matrix) :
  init_r_array s_matrix = inr r0 ->
  length r0 = length s_matrix /\
  forall i row, r0 !! i = Some row ->
    (exists s_row, s_matrix !! i = Some s_row /\ length row = length s_row) /\
    (forall x, x ∈ row -> (x <= 0)%Q) /\
    exists k x, row !! k = Some x /\ (x == 0)%Q.
Proof.
  intros Hrun. pose proof (init_r_array_rows_nonempty _ _ Hrun) as [Hrows Hne].
  rewrite (init_r_array_eq _ Hrows Hne) in Hrun. injection Hrun as <-.
  split; [by rewrite length_fmap|].
  intros i row Hi. rewrite list_lookup_fmap in Hi.
  destruct (s_matrix !! i) as [s_row|] eqn:Hs; [|done].
  simpl in Hi. injection Hi as <-.
  assert (Hin : s_row ∈ s_matrix) by (eapply list_elem_of_lookup_2; eauto).
  split; [exists s_row; by rewrite length_fmap|]. split.
  - intros x (y & -> & Hy)%list_elem_of_fmap.
    pose proof (row_max_ge s_row y Hy). lra.
  - destruct (list_elem_of_lookup_1 _ _ (row_max_elem s_row (Hne _ Hin)))
      as (k & Hk).
    exists k, (row_max s_row - row_max s_row)%Q.
    split; [by rewrite list_lookup_fmap, Hk|ring].
Qed.

Lemma init_r_array_nonpositive_witness :
  init_r_array line3_s = inr line3_r0 /\
  length line3_r0 = length line3_s /\
  forall i row, line3_r0 !! i = Some row ->
    (exists s_row, line3_s !! i = Some s_row /\ length row = length s_row) /\
    (forall x, x ∈ row -> (x <= 0)%Q) /\
    exists k x, row !! k = Some x /\ (x == 0)%Q.
Proof.
  assert (H : init_r_array line3_s = inr line3_r0) by reflexivity.
  split; [exact H|]. exact (init_r_array_nonpositive line3_s line3_r0 H).
Defined.

(** X7. A matrix with a row of no columns makes [init_r_array] raise
    [ValueError]: the maximum of that row does not exist. *)
Theorem init_r_array_value_error (s_matrix : matrix) :
  [] ∈ s_matrix ->
  exists msg, init_r_array s_matrix = inl (ValueError msg).
Proof.
  intros Hin.
  assert (Hmap : exists msg,
            py_mapM (fun row : vec =>
                       mx <- np_max row ;; inr ((fun x => (x - mx)%Q) <$> row))
                    s_matrix = inl (ValueError msg)).
  { induction s_matrix as [|row s IH]; [by apply elem_of_nil in Hin|].
    destruct row as [|x row]; [by eexists|].
    apply elem_of_cons in Hin as [|Hin]; [done|].
    destruct (IH Hin) as (msg & Hmsg). exists msg.
    simpl. simpl in Hmsg. by rewrite Hmsg. }
  unfold init_r_array. destruct s_matrix; [by eexists|done].
Qed.

Lemma init_r_array_value_error_witness :
  [] ∈ ([[]; []] : matrix) /\
  exists msg, init_r_array [[]; []] = inl (ValueError msg).
Proof.
  assert (H : [] ∈ ([[]; []] : matrix)) by left.
  split; [exact H|]. exact (init_r_array_value_error [[]; []] H).
Defined.

(** ** More on the availability update *)

Lemma spec_availability_term_sign (r : matrix) (n i k : nat) :
  (i <> k -> (spec_availability_term r n i k <= 0)%Q) /\
  (i = k -> (0 <= spec_availability_term r n i k)%Q).
Proof.
  unfold spec_availability_term, spec_rectified_sum. split; intros Hik.
  - rewrite decide_False by done. apply Q.le_min_l.
  - rewrite decide_True by done. apply Qsum_nonneg.
    intros x (j & -> & _)%list_elem_of_fmap. apply Q.le_max_l.
Qed.

Lemma Qmult_nonneg_nonpos (a b : Q) : (0 <= a)%Q -> (b <= 0)%Q -> (a * b <= 0)%Q.
Proof.
  intros Ha Hb. assert (H : (0 <= a * - b)%Q) by (apply Qmult_le_0_compat; lra).
  assert (E : (a * - b == - (a * b))%Q) by ring. lra.
Qed.

(** The slice a successful call returns, read through the loops. *)
Lemma a_array_update_slice (iterations n : nat) (niter : Z)
    (r_array a_array : tensor) (damp_c : Q) (r_prev a_prev : matrix)
    (a' : tensor) (slice : matrix) :
  cube iterations n r_array -> cube iterations n a_array ->
  (1 <= niter < Z.of_nat iterations)%Z ->
  r_array !! Z.to_nat (niter - 1) = Some r_prev ->
  a_array !! Z.to_nat (niter - 1) = Some a_prev ->
  a_array_update n niter r_array damp_c a_array = inr (a', slice) ->
  square n slice /\
  forall i k, i < n -> k < n ->
    (entry slice i k
     == damp_c * spec_availability_term r_prev n i k
        + (1 - damp_c) * entry a_prev i k)%Q.
Proof.
  intros Hr Ha Hn Hrp Hap Hrun.
  destruct (a_array_update_loops iterations n niter r_array a_array damp_c
              r_prev a_prev Hr Ha Hn Hrp Hap)
    as (a1 & Hloops & Hc1 & _ & Hval).
  unfold a_array_update in Hrun. rewrite Hloops in Hrun. cbn [py_bind] in Hrun.
  rewrite py_idx_nonneg in Hrun by lia.
  destruct (cube_lookup _ _ _ (Z.to_nat niter) Hc1) as (m & Hm & Hsq); [lia|].
  rewrite (idx_Some _ _ _ Hm) in Hrun. cbn [py_bind] in Hrun.
  injection Hrun as <- <-. split; [done|].
  intros i k Hi Hk. rewrite <- (Hval i k Hi Hk). unfold entry3.
  rewrite Hm. reflexivity.
Qed.

(** X8. With a damping factor in [0, 1], [a_array_update] keeps the signs of
    the availabilities: if the previous slice is at most 0 off the diagonal
    and at least 0 on it, so is the slice the call returns. *)
Theorem a_array_update_signs (iterations n : nat) (niter : Z)
    (r_array a_array : tensor) (damp_c : Q) (a' : tensor) (slice : matrix) :
  cube iterations n r_array -> cube iterations n a_array ->
  (1 <= niter < Z.of_nat iterations)%Z ->
  (0 <= damp_c)%Q -> (damp_c <= 1)%Q ->
  (forall i k, i < n -> k < n -> i <> k ->
     (entry3 a_array (Z.to_nat (niter - 1)) i k <= 0)%Q) ->
  (forall k, k < n -> (0 <= entry3 a_array (Z.to_nat (niter - 1)) k k)%Q) ->
  a_array_update n niter r_array damp_c a_array = inr (a', slice) ->
  (forall i k, i < n -> k < n -> i <> k -> (entry slice i k <= 0)%Q) /\
  (forall k, k < n -> (0 <= entry slice k k)%Q).
Proof.
  intros Hr Ha Hn Hd0 Hd1 Hoff Hdiag Hrun.
  destruct (cube_lookup _ _ _ (Z.to_nat (niter - 1)) Hr)
    as (r_prev & Hrp & _); [lia|].
  destruct (cube_lookup _ _ _ (Z.to_nat (niter - 1)) Ha)
    as (a_prev & Hap & _); [lia|].
  destruct (a_array_update_slice iterations n niter r_array a_array damp_c
              r_prev a_prev a' slice Hr Ha Hn Hrp Hap Hrun) as [_ Hval].
  unfold entry3 in Hoff, Hdiag. rewrite Hap in Hoff, Hdiag. simpl in Hoff, Hdiag.
  split.
  - intros i k Hi Hk Hik. rewrite (Hval i k Hi Hk).
    destruct (spec_availability_term_sign r_prev n i k) as [Hs _].
    specialize (Hs Hik). specialize (Hoff i k Hi Hk Hik).
    assert (damp_c * spec_availability_term r_prev n i k <= 0)%Q
      by (by apply Qmult_nonneg_nonpos).
    assert ((1 - damp_c) * entry a_prev i k <= 0)%Q
      by (apply Qmult_nonneg_nonpos; [lra|done]).
    lra.
  - intros k Hk. rewrite (Hval k k Hk Hk).
    destruct (spec_availability_term_sign r_prev n k k) as [_ Hs].
    specialize (Hs eq_refl). specialize (Hdiag k Hk).
    assert (0 <= damp_c * spec_availability_term r_prev n k k)%Q
      by (by apply Qmult_le_0_compat).
    assert (0 <= (1 - damp_c) * entry a_prev k k)%Q
      by (apply Qmult_le_0_compat; [lra|done]).
    lra.
Qed.

Lemma a_array_update_signs_witness :
  cube 2 2 [[[0; -3]; [-3; 0]]; [[0; 0]; [0; 0]]]%Q /\
  cube 2 2 (np_zeros3 2 2 2) /\ (1 <= 1 < Z.of_nat 2)%Z /\
  (0 <= 1 # 2)%Q /\ (1 # 2 <= 1)%Q /\
  (forall i k, i < 2 -> k < 2 -> i <> k ->
     (entry3 (np_zeros3 2 2 2) (Z.to_nat (1 - 1)) i k <= 0)%Q) /\
  (forall k, k < 2 ->
     (0 <= entry3 (np_zeros3 2 2 2) (Z.to_nat (1 - 1)) k k)%Q) /\
  exists a' slice,
    a_array_update 2 1 [[[0; -3]; [-3; 0]]; [[0; 0]; [0; 0]]]%Q (1 # 2)
                   (np_zeros3 2 2 2) = inr (a', slice) /\
    (forall i k, i < 2 -> k < 2 -> i <> k -> (entry slice i k <= 0)%Q) /\
    (forall k, k < 2 -> (0 <= entry slice k k)%Q).
Proof.
  assert (H1 : cube 2 2 [[[0; -3]; [-3; 0]]; [[0; 0]; [0; 0]]]%Q)
    by (apply is_cube_true; reflexivity).
  assert (H2 : cube 2 2 (np_zeros3 2 2 2)) by (apply is_cube_true; reflexivity).
  assert (H3 : (1 <= 1 < Z.of_nat 2)%Z) by (simpl; lia).
  assert (H4 : (0 <= 1 # 2)%Q) by lra.
  assert (H5 : (1 # 2 <= 1)%Q) by lra.
  assert (H6 : forall i k, i < 2 -> k < 2 -> i <> k ->
                 (entry3 (np_zeros3 2 2 2) (Z.to_nat (1 - 1)) i k <= 0)%Q).
  { intros [|[|i]] [|[|k]] Hi Hk Hik; try lia; apply Qle_refl. }
  assert (H7 : forall k, k < 2 ->
                 (0 <= entry3 (np_zeros3 2 2 2) (Z.to_nat (1 - 1)) k k)%Q).
  { intros [|[|k]] Hk; try lia; apply Qle_refl. }
  do 7 (split; [assumption|]).
  eexists. eexists. split; [reflexivity|].
  exact (a_array_update_signs 2 2 1 [[[0; -3]; [-3; 0]]; [[0; 0]; [0; 0]]]%Q
           (np_zeros3 2 2 2) (1 # 2) _ _ H1 H2 H3 H4 H5 H6 H7 eq_refl).
Defined.

Lemma py_idx_out_of_range {A : Type} (l : list A) (z : Z) :
  (Z.of_nat (length l) <= z)%Z \/ (z < - Z.of_nat (length l))%Z ->
  py_idx l z = inl (IndexError "index out of bounds").
Proof.
  intros Hz. unfold py_idx. destruct (Z.ltb_spec z 0).
  - destruct (Z.leb_spec (- z) (Z.of_nat (length l))); [lia|done].
  - unfold idx. rewrite lookup_ge_None_2; [done|lia].
Qed.

(** The first assignment of the loops, at [(0, 0)], fails when [niter] is
    not the index of a slice. *)
Lemma a_array_update_at_index_error (iterations n : nat) (niter : Z)
    (r_array a_array : tensor) (damp_c : Q) :
  cube iterations (S n) r_array -> cube iterations (S n) a_array ->
  (Z.of_nat iterations <= niter)%Z ->
  exists msg,
    a_array_update_at (S n) niter r_array damp_c 0 0 a_array
    = inl (IndexError msg).
Proof.
  intros Hr Ha Hn. unfold a_array_update_at. simpl negb. cbv iota.
  rewrite set_idx_lt by (unfold np_ones; rewrite length_replicate; lia).
  cbn [py_bind].
  destruct (decide (niter = Z.of_nat iterations /\ 1 <= iterations))
    as [[-> Hit]|Hout].
  - assert (Hp : (0 <= Z.of_nat iterations - 1 < Z.of_nat iterations)%Z) by lia.
    rewrite !(get_col3_entry iterations (S n)) by (done || lia).
    rewrite !(get3_entry iterations (S n)) by (done || lia).
    cbn [py_bind].
    destruct (temp_vec_one (S n) 0) as [Hlen Htemp]; [lia|].
    destruct (rectified_dot (S n)
                (fun j => entry3 r_array (Z.to_nat (Z.of_nat iterations - 1)) j 0)
                [0] _ Hlen Htemp) as (temp' & s & Hmask & Hdot & _).
    rewrite Hmask. cbn [py_bind]. rewrite Hdot. cbn [py_bind].
    unfold set3. rewrite py_idx_out_of_range; [by eexists|].
    destruct Ha as [-> _]. lia.
  - unfold get_col3. rewrite py_idx_out_of_range; [by eexists|].
    destruct Hr as [-> _]. lia.
Qed.

(** X9. Both update helpers raise [IndexError] when [niter] is not below the
    number of slices of the history arrays. *)
Theorem updates_index_error (iterations n : nat) (niter : Z)
    (r_array a_array : tensor) (s_matrix : matrix) (damp_c : Q) :
  cube iterations n r_array -> cube iterations n a_array ->
  (Z.of_nat iterations <= niter)%Z ->
  (exists msg,
     a_array_update n niter r_array damp_c a_array = inl (IndexError msg)) /\
  (exists msg,
     r_array_update niter a_array s_matrix damp_c r_array
     = inl (IndexError msg)).
Proof.
  intros Hr Ha Hn. split.
  - unfold a_array_update. destruct n as [|n].
    + cbn [seq for_each py_bind]. rewrite py_idx_out_of_range; [by eexists|].
      destruct Ha as [-> _]. lia.
    + destruct (a_array_update_at_index_error iterations n niter r_array
                  a_array damp_c Hr Ha Hn) as (msg & Hmsg).
      exists msg. change (seq 0 (S n)) with (0 :: seq 1 n).
      cbn [for_each]. by rewrite Hmsg.
  - unfold r_array_update. rewrite py_idx_out_of_range; [by eexists|].
    destruct Ha as [-> _]. lia.
Qed.

Lemma updates_index_error_witness :
  cube 2 2 (np_zeros3 2 2 2) /\ (Z.of_nat 2 <= 2)%Z /\
  (exists msg,
     a_array_update 2 2 (np_zeros3 2 2 2) (1 # 2) (np_zeros3 2 2 2)
     = inl (IndexError msg)) /\
  (exists msg,
     r_array_update 2 (np_zeros3 2 2 2) (np_zeros2 2 2) (1 # 2)
                    (np_zeros3 2 2 2)
     = inl (IndexError msg)).
Proof.
  assert (H1 : cube 2 2 (np_zeros3 2 2 2)) by (apply is_cube_true; reflexivity).
  assert (H2 : (Z.of_nat 2 <= 2)%Z) by (simpl; lia).
  split; [exact H1|]. split; [exact H2|].
  exact (updates_index_error 2 2 2 (np_zeros3 2 2 2) (np_zeros3 2 2 2)
           (np_zeros2 2 2) (1 # 2) H1 H1 H2).
Defined.

(** ** More on the responsibility update *)

(** X10. With a single data point [r_array_update] raises [ValueError]: the
    row of [A + S] without its only column is empty and has no maximum. *)
Theorem r_array_update_single_point (iterations : nat) (niter : Z)
    (a_array r_array : tensor) (s_matrix : matrix) (damp_c : Q) :
  cube iterations 1 a_array -> square 1 s_matrix ->
  (0 <= niter < Z.of_nat iterations)%Z ->
  exists msg,
    r_array_update niter a_array s_matrix damp_c r_array
    = inl (ValueError msg).
Proof.
  intros Ha Hs Hn. unfold r_array_update.
  rewrite py_idx_nonneg by lia.
  destruct (cube_lookup _ _ _ (Z.to_nat niter) Ha) as (a_t & Hat & Hsq); [lia|].
  rewrite (idx_Some _ _ _ Hat). cbn [py_bind].
  destruct (mat_zip_spec Qplus 1 a_t s_matrix Hsq Hs) as (c & -> & Hc & _).
  cbn [py_bind].
  rewrite (shape1_square 1 c Hc) by lia.
  destruct Hc as [Hlen Hrows].
  destruct c as [|row [|]]; try discriminate.
  assert (Hrow : length row = 1) by (apply Hrows; left).
  destruct row as [|x [|]]; try discriminate.
  by eexists.
Qed.

Lemma r_array_update_single_point_witness :
  cube 2 1 (np_zeros3 2 1 1) /\ square 1 [[0%Q]] /\ (0 <= 1 < Z.of_nat 2)%Z /\
  exists msg,
    r_array_update 1 (np_zeros3 2 1 1) [[0%Q]] (1 # 2) (np_zeros3 2 1 1)
    = inl (ValueError msg).
Proof.
  assert (H1 : cube 2 1 (np_zeros3 2 1 1)) by (apply is_cube_true; reflexivity).
  assert (H2 : square 1 [[0%Q]]) by (apply is_square_true; reflexivity).
  assert (H3 : (0 <= 1 < Z.of_nat 2)%Z) by (simpl; lia).
  do 3 (split; [assumption|]).
  exact (r_array_update_single_point 2 1 (np_zeros3 2 1 1) (np_zeros3 2 1 1)
           [[0%Q]] (1 # 2) H1 H2 H3).
Defined.

(** ** What a run of the loop can hand back *)

(** A run from the state after iteration [t] either ends without [return],
    having printed the message at the last iteration, or returns the tuple
    of an iteration beyond the window, having printed nothing. *)
Lemma afprop_loop_cases
    (step : nat -> tensor * tensor -> py (tensor * tensor))
    (dim n iters w m t : nat) (st : loop_state)
    (out : list string) (ret : afprop_return) :
  S t + m = iters ->
  ls_stdout st = (if (1 <=? t) && (t =? iters - 1) then [stability_msg] else []) ->
  afprop_loop (loop_body step dim n iters w) (seq (S t) m) st = inr (out, ret) ->
  (ret = RetNone /\ out = if 1 <=? t + m then [stability_msg] else []) \/
  (exists niter clusters,
     t < niter < iters /\ w < niter /\ out = [] /\
     ret = make_return dim n niter clusters).
Proof.
  revert t st. induction m as [|m IH]; intros t st Hm Hout Hrun.
  - simpl in Hrun. injection Hrun as <- <-. left. split; [done|].
    rewrite Hout, Nat.add_0_r.
    replace (t =? iters - 1) with true by (symmetry; apply Nat.eqb_eq; lia).
    by rewrite andb_true_r.
  - assert (Hout0 : ls_stdout st = []).
    { rewrite Hout. destruct (Nat.eqb_spec t (iters - 1)); [lia|].
      by rewrite andb_false_r. }
    cbn [seq afprop_loop] in Hrun.
    apply py_bind_inv in Hrun as (o & Hbody & Hrun).
    apply loop_body_inv in Hbody
      as (a & r & clusters & stab & _ & _ & _ & ->).
    destruct (window_stable stab w (S t)) eqn:Hwin.
    + injection Hrun as <- <-. right. exists (S t), clusters.
      unfold window_stable in Hwin.
      apply andb_true_iff in Hwin as [Hw%Nat.ltb_lt _].
      split; [lia|]. by split.
    + apply IH in Hrun; [|lia|].
      * destruct Hrun as [[-> ->]|(niter & cl & Hn & Hrest)].
        -- left. split; [done|]. by replace (S t + m) with (t + S m) by lia.
        -- right. exists niter, cl. split; [lia|done].
      * cbn [ls_stdout]. rewrite Hout0. simpl.
        by destruct (t =? iters - 1 - 1); destruct (iters - 1).
Qed.

(** X11. Whatever the update step does, a run of the loop that ends without
    an exception hands back one of two things.  Either [None], and then the
    stability message is the only line printed, and it is printed exactly
    when the loop has at least one iteration ([iterations >= 2]).  Or a
    tuple, and then nothing was printed, the tuple has five components
    exactly for two-dimensional data, and its [final_iter] lies between
    [num_stable_iters + 2] and [iterations]. *)
Theorem afprop_loop_result
    (step : nat -> tensor * tensor -> py (tensor * tensor))
    (dim n iters w : nat) (r_array0 : tensor)
    (out : list string) (ret : afprop_return) :
  afprop_loop (loop_body step dim n iters w) (seq 1 (iters - 1))
              (init_state n iters r_array0) = inr (out, ret) ->
  match ret with
  | RetNone => out = if 2 <=? iters then [stability_msg] else []
  | Ret4 _ _ _ final_iter =>
      dim <> 2 /\ out = [] /\ w + 2 <= final_iter <= iters
  | Ret5 _ _ _ final_iter =>
      dim = 2 /\ out = [] /\ w + 2 <= final_iter <= iters
  end.
Proof.
  intros Hrun. destruct iters as [|iters'].
  { simpl in Hrun. by injection Hrun as <- <-. }
  apply (afprop_loop_cases step dim n (S iters') w (S iters' - 1) 0) in Hrun;
    [|lia|done].
  destruct Hrun as [[-> ->]|(niter & clusters & Hn & Hw & -> & ->)].
  - rewrite Nat.add_0_l.
    by destruct (Nat.leb_spec 1 (S iters' - 1)), (Nat.leb_spec 2 (S iters'));
      (done || lia).
  - unfold make_return. destruct (Nat.eqb_spec dim 2) as [Hd|Hd];
      (split; [done|]); (split; [done|lia]).
Qed.

Lemma afprop_loop_result_witness :
  afprop_loop (loop_body (update_step 3 line3_s 1) 1 3 10 1) (seq 1 (10 - 1))
              (init_state 3 10 (line3_r0 :: np_zeros3 9 3 3))
  = inr ([], Ret4 [0; 0; 1] [0] 2 4) /\
  1 <> 2 /\ ([] : list string) = [] /\ 1 + 2 <= 4 <= 10.
Proof.
  assert (H : afprop_loop (loop_body (update_step 3 line3_s 1) 1 3 10 1)
                (seq 1 (10 - 1)) (init_state 3 10 (line3_r0 :: np_zeros3 9 3 3))
              = inr ([], Ret4 [0; 0; 1] [0] 2 4))
    by (vm_compute; reflexivity).
  split; [exact H|].
  exact (afprop_loop_result (update_step 3 line3_s 1) 1 3 10 1
           (line3_r0 :: np_zeros3 9 3 3) [] (Ret4 [0; 0; 1] [0] 2 4) H).
Defined.

(** X12. A stability window of [iterations - 1] or more can never be
    filled: whatever the update step does, such a run hands back [None],
    although the parameter check accepts every window up to [iterations]. *)
Theorem afprop_loop_window_too_long
    (step : nat -> tensor * tensor -> py (tensor * tensor))
    (dim n iters w : nat) (r_array0 : tensor)
    (out : list string) (ret : afprop_return) :
  iters <= w + 1 ->
  afprop_loop (loop_body step dim n iters w) (seq 1 (iters - 1))
              (init_state n iters r_array0) = inr (out, ret) ->
  ret = RetNone /\
  forall p d, valid_params p (PyInt (Z.of_nat iters)) d (PyInt 1) ->
              valid_params p (PyInt (Z.of_nat iters)) d
                           (PyInt (Z.of_nat iters)).
Proof.
  intros Hw Hrun. split.
  - destruct iters as [|iters'].
    { simpl in Hrun. by injection Hrun as _ <-. }
    apply (afprop_loop_cases step dim n (S iters') w (S iters' - 1) 0) in Hrun;
      [|lia|done].
    destruct Hrun as [[-> _]|(niter & _ & Hn & Hlt & _)]; [done|lia].
  - intros p d (Hp & (z & Hi & Hz) & Hd & _). injection Hi as <-.
    split; [done|]. split; [by exists (Z.of_nat iters)|]. split; [done|].
    exists (Z.of_nat iters), (Z.of_nat iters).
    split; [done|]. split; [done|lia].
Qed.

Lemma afprop_loop_window_too_long_witness :
  2 <= 1 + 1 /\
  afprop_loop (loop_body (update_step 3 line3_s 1) 1 3 2 1) (seq 1 (2 - 1))
              (init_state 3 2 (line3_r0 :: np_zeros3 1 3 3))
  = inr ([stability_msg], RetNone) /\
  valid_params (PyInt 2) (PyInt (Z.of_nat 2)) (PyInt 1) (PyInt (Z.of_nat 2)).
Proof.
  assert (H1 : 2 <= 1 + 1) by lia.
  assert (H2 : afprop_loop (loop_body (update_step 3 line3_s 1) 1 3 2 1)
                 (seq 1 (2 - 1)) (init_state 3 2 (line3_r0 :: np_zeros3 1 3 3))
               = inr ([stability_msg], RetNone))
    by (vm_compute; reflexivity).
  split; [exact H1|]. split; [exact H2|].
  apply (afprop_loop_window_too_long (update_step 3 line3_s 1) 1 3 2 1
           (line3_r0 :: np_zeros3 1 3 3) [stability_msg] RetNone H1 H2).
  apply validate_ok_iff. reflexivity.
Defined.

(** ** Edge cases of the clustering step and of the set-up *)

(** X14. Without data points the clustering of an iteration raises
    [ValueError]: the slices exist but have no row to take a maximum
    over. *)
Theorem iteration_clusters_no_data (iterations niter : nat)
    (r_array a_array : tensor) :
  cube iterations 0 r_array -> cube iterations 0 a_array ->
  niter < iterations ->
  exists msg, iteration_clusters r_array a_array niter = inl (ValueError msg).
Proof.
  intros Hr Ha Hniter. unfold iteration_clusters.
  destruct (cube_lookup _ _ _ niter Hr) as (r_t & Hrt & [Hlr _]); [done|].
  destruct (cube_lookup _ _ _ niter Ha) as (a_t & Hat & [Hla _]); [done|].
  rewrite (idx_Some _ _ _ Hrt), (idx_Some _ _ _ Hat). cbn [py_bind].
  destruct r_t; [|discriminate]. destruct a_t; [|discriminate].
  by eexists.
Qed.

Lemma iteration_clusters_no_data_witness :
  cube 2 0 (np_zeros3 2 0 0) /\ 1 < 2 /\
  exists msg,
    iteration_clusters (np_zeros3 2 0 0) (np_zeros3 2 0 0) 1
    = inl (ValueError msg).
Proof.
  assert (H1 : cube 2 0 (np_zeros3 2 0 0)) by (apply is_cube_true; reflexivity).
  assert (H2 : 1 < 2) by lia.
  split; [exact H1|]. split; [exact H2|].
  exact (iteration_clusters_no_data 2 1 (np_zeros3 2 0 0) (np_zeros3 2 0 0)
           H1 H1 H2).
Defined.

(** X15. For at least one data point the set-up of the message passing
    never raises, in either mode: [calc_similarity_matrix] returns a square
    matrix, [init_r_array] accepts it and returns a matrix of that shape,
    whose entries are at most 0. *)
Theorem similarity_then_init (mydata : matrix) (num_cluster_pref : pynum) :
  1 <= length mydata ->
  exists s r0,
    calc_similarity_matrix mydata num_cluster_pref = inr s /\
    init_r_array s = inr r0 /\
    square (length mydata) s /\ square (length mydata) r0 /\
    forall i k, (entry r0 i k <= 0)%Q.
Proof.
  intros Hn.
  destruct (calc_similarity_matrix_square mydata num_cluster_pref Hn)
    as (s & Hs & Hsq).
  destruct (init_r_array_square (length mydata) s Hsq Hn) as (r0 & Hr0 & Hsq0).
  exists s, r0. do 4 (split; [done|]).
  intros i k. unfold entry.
  destruct (r0 !! i) as [row|] eqn:Hrow; [|apply Qle_refl]. simpl.
  destruct (row !! k) as [x|] eqn:Hx; [|apply Qle_refl]. simpl.
  destruct (init_r_array_rows_nonempty s r0 Hr0) as [Hrows Hne].
  rewrite (init_r_array_eq s Hrows Hne) in Hr0. injection Hr0 as <-.
  rewrite list_lookup_fmap in Hrow.
  destruct (s !! i) as [s_row|]; [|done]. injection Hrow as <-.
  rewrite list_lookup_fmap in Hx.
  destruct (s_row !! k) as [y|] eqn:Hy; [|done]. injection Hx as <-.
  pose proof (row_max_ge s_row y ltac:(eapply list_elem_of_lookup_2; eauto)).
  lra.
Qed.

Lemma similarity_then_init_witness :
  1 <= length line3 /\
  exists s r0,
    calc_similarity_matrix line3 (PyInt 2) = inr s /\
    init_r_array s = inr r0 /\
    square (length line3) s /\ square (length line3) r0.
Proof.
  assert (H : 1 <= length line3) by (simpl; lia).
  split; [exact H|].
  destruct (similarity_then_init line3 (PyInt 2) H)
    as (s & r0 & Hs & Hr0 & Hsq & Hsq0 & _).
  exists s, r0. do 3 (split; [assumption|]). exact Hsq0.
Defined.
